(** * PolylineVolumeOutlineGeometry: outline topology and pack/unpack

    A shallow embedding of [Source/Core/PolylineVolumeOutlineGeometry.js].

    - JavaScript numbers are rationals ([Q]); a slot that holds no number is
      [undefined].  Division by zero, whose JavaScript result is not finite,
      has no counterpart in [Q] and is reported as [NonFinite].
    - An [Array] is a [list]; a write past the end extends it, a read past
      the end gives [undefined].
    - A [Uint16Array]/[Uint32Array] is a list of [Z] of fixed length; a write
      stores the value modulo [2^bits], a write past the end is dropped.
    - Ellipsoids are mutable objects that the code shares (the module keeps
      one scratch instance), so they live in a store indexed by reference.
    - The [debug] pragma blocks are part of the source and are modelled. *)

From Stdlib Require Import ZArith QArith Qround.
From stdpp Require Import gmap strings list.

Local Open Scope Z_scope.

(** ** JavaScript values, errors, arrays *)

Module JS.

Inductive value : Type :=
| undefined
| number (q : Q).

Inductive error : Type :=
| DeveloperError (message : string)
| RangeError
| TypeError.

(** What a call does: it returns, it throws, or it leaves the rationals. *)
Inductive outcome (A : Type) : Type :=
| Returns (a : A)
| Throws (e : error)
| NonFinite.
Arguments Returns {A} a.
Arguments Throws {A} e.
Arguments NonFinite {A}.

Definition bind {A B} (m : outcome A) (k : A -> outcome B) : outcome B :=
  match m with
  | Returns a => k a
  | Throws e => Throws e
  | NonFinite => NonFinite
  end.

Definition defined (v : value) : bool :=
  match v with undefined => false | number _ => true end.

(** [defaultValue(a, b)] *)
Definition defaultValue (a b : value) : value :=
  match a with undefined => b | number _ => a end.

Definition defaultOpt {A} (a : option A) (b : A) : A :=
  match a with Some x => x | None => b end.

Definition of_nat (n : nat) : Q := inject_Z (Z.of_nat n).

(** Truncation towards zero (ToIntegerOrInfinity on a finite number). *)
Definition truncate (q : Q) : Z :=
  if Qle_bool 0 q then Qfloor q else Qceiling q.

(** [a[i]] on an array of numbers *)
Definition get (a : list value) (i : nat) : value :=
  match a !! i with Some v => v | None => undefined end.

(** [a[i] = v]: in range it overwrites, past the end the array grows and
    the skipped slots are holes. *)
Definition set_with {A} (hole : A) (a : list A) (i : nat) (v : A) : list A :=
  if decide (i < length a)%nat then <[i := v]> a
  else a ++ replicate (i - length a) hole ++ [v].

Definition set : list value -> nat -> value -> list value := set_with undefined.

Definition MAX_ARRAY_LENGTH : Z := 2 ^ 32 - 1.

Definition is_array_length (q : Q) : bool :=
  (Qden (Qred q) =? 1)%positive && (0 <=? Qnum (Qred q)) && (Qnum (Qred q) <=? MAX_ARRAY_LENGTH).

(** [new Array(len)]: a number must be a valid length, and gives that many
    holes; any other single argument becomes the only element. *)
Definition new_Array {A} (len : value) : outcome (list (option A)) :=
  match len with
  | number q =>
      if is_array_length q then Returns (replicate (Z.to_nat (Qnum (Qred q))) None)
      else Throws RangeError
  | undefined => Returns [None]
  end.

(** Number of times the body of [for (i = 0; i < bound; ++i)] runs, for a
    bound the body does not change: the least natural number not below it. *)
Definition trips (bound : Q) : nat := Z.to_nat (Qceiling bound).

(** [i < undefined] is false. *)
Definition trips_value (bound : value) : nat :=
  match bound with number q => trips q | undefined => 0%nat end.

(** [for (i = from; ...; ++i) body], run [count] times. *)
Fixpoint for_loop {S} (count from : nat) (body : nat -> S -> outcome S) (s : S)
  : outcome S :=
  match count with
  | O => Returns s
  | Datatypes.S k => bind (body from s) (for_loop k (Datatypes.S from) body)
  end.

(** *** Unsigned integer typed arrays *)

Record TypedArray : Type := { bits : Z; elements : list Z }.

Definition ToUint (w : Z) (q : Q) : Z := truncate q mod 2 ^ w.

(** [new UintNArray(len)] *)
Definition TypedArray_new (w : Z) (len : Q) : outcome TypedArray :=
  if truncate len <? 0 then Throws RangeError
  else Returns {| bits := w; elements := replicate (Z.to_nat (truncate len)) 0 |}.

(** [new UintNArray(source)], from another typed array *)
Definition TypedArray_from (w : Z) (source : TypedArray) : TypedArray :=
  {| bits := w; elements := (fun x => x mod 2 ^ w) <$> elements source |}.

(** [ta[i] = v] *)
Definition TypedArray_set (ta : TypedArray) (i : nat) (v : Q) : TypedArray :=
  {| bits := bits ta; elements := <[i := ToUint (bits ta) v]> (elements ta) |}.

End JS.

Import JS.

Global Instance outcome_ret : MRet outcome := @Returns.
Global Instance outcome_bind : MBind outcome := fun A B k m => JS.bind m k.


(** ** Collaborators of the serializer

    [Cartesian2], [Cartesian3], [Ellipsoid], [CornerType] and [CesiumMath]
    are modules of the repository that the file under study only calls. *)

Module Cartesian3.

Record t : Type := { x : value; y : value; z : value }.

(** Modelled from the spec: [Cartesian3.packedLength] is not in the source
    under study; a path point takes 3 numbers (x, y, z). *)
Definition packedLength : nat := 3.

(** Modelled from the spec: [Cartesian3.pack] is not in the source under
    study; it stores x, y, z in three consecutive slots, and needs a
    point to read them from. *)
Definition pack (value : option t) (array : list JS.value) (startingIndex : nat)
  : outcome (list JS.value) :=
  match value with
  | None => Throws (DeveloperError "value is required")
  | Some value =>
      let array := JS.set array startingIndex (x value) in
      let array := JS.set array (startingIndex + 1) (y value) in
      Returns (JS.set array (startingIndex + 2) (z value))
  end.

(** Modelled from the spec: [Cartesian3.unpack] is not in the source under
    study; it reads the three slots back into a new point. *)
Definition unpack (array : list JS.value) (startingIndex : nat) : t :=
  {| x := JS.get array startingIndex;
     y := JS.get array (startingIndex + 1);
     z := JS.get array (startingIndex + 2) |}.

End Cartesian3.

Module Cartesian2.

Record t : Type := { x : value; y : value }.

(** Modelled from the spec: [Cartesian2.packedLength] is not in the source
    under study; a shape point takes 2 numbers (x, y). *)
Definition packedLength : nat := 2.

(** Modelled from the spec: [Cartesian2.pack] is not in the source under
    study; it stores x, y in two consecutive slots. *)
Definition pack (value : option t) (array : list JS.value) (startingIndex : nat)
  : outcome (list JS.value) :=
  match value with
  | None => Throws (DeveloperError "value is required")
  | Some value =>
      let array := JS.set array startingIndex (x value) in
      Returns (JS.set array (startingIndex + 1) (y value))
  end.

(** Modelled from the spec: [Cartesian2.unpack] is not in the source under
    study; it reads the two slots back into a new point. *)
Definition unpack (array : list JS.value) (startingIndex : nat) : t :=
  {| x := JS.get array startingIndex;
     y := JS.get array (startingIndex + 1) |}.

End Cartesian2.

(** Modelled from the spec: [CornerType] is not in the source under study;
    the corner styles ROUNDED, MITERED, BEVELED cross the serializer as
    integer codes. *)
Module CornerType.
Definition ROUNDED : value := number 0.
Definition MITERED : value := number 1.
Definition BEVELED : value := number 2.
End CornerType.

Module CesiumMath.
(** Modelled from the spec: [CesiumMath.RADIANS_PER_DEGREE] is not in the
    source under study; one degree in radians, to the digits of a double. *)
Definition RADIANS_PER_DEGREE : value :=
  number (17453292519943295 # 1000000000000000000).
End CesiumMath.

(** An ellipsoid is an object with identity: the store maps a reference to
    the radii the object holds at the moment. *)
Module Ellipsoid.

Definition ref : Type := positive.

Record object : Type := { _radii : Cartesian3.t }.

Abbreviation store := (gmap positive object).

(** Modelled from the spec: the reference surface is encoded by its radii,
    in a fixed number of slots. *)
Definition packedLength : nat := Cartesian3.packedLength.

(** Modelled from the spec: the default reference surface, a standard
    oblate one ([Ellipsoid.WGS84]), and the unit sphere the module clones
    its scratch instance from, are objects of the library. *)
Definition WGS84 : ref := 1%positive.
Definition UNIT_SPHERE : ref := 2%positive.

Definition WGS84_radii : Cartesian3.t :=
  {| Cartesian3.x := number 6378137;
     Cartesian3.y := number 6378137;
     Cartesian3.z := number (63567523142451793 # 10000000000) |}.

Definition UNIT_SPHERE_radii : Cartesian3.t :=
  {| Cartesian3.x := number 1; Cartesian3.y := number 1; Cartesian3.z := number 1 |}.

(** A reference outside the store denotes no object; reading through it
    is reading a property of [undefined]. *)
Definition read (h : store) (e : ref) : outcome Cartesian3.t :=
  match h !! e with
  | Some o => Returns (_radii o)
  | None => Throws TypeError
  end.

Definition alloc (h : store) (radii : Cartesian3.t) : ref * store :=
  let e := fresh (dom h) in (e, <[e := {| _radii := radii |}]> h).

(** Modelled from the spec: [Ellipsoid.clone(ellipsoid, result)] is not in
    the source under study; it copies the radii into [result], or into a
    new instance when there is no [result], and returns that instance. *)
Definition clone (ellipsoid : ref) (result : option ref) (h : store)
  : outcome (ref * store) :=
  radii ← read h ellipsoid;
  match result with
  | None => Returns (alloc h radii)
  | Some result => Returns (result, <[result := {| _radii := radii |}]> h)
  end.

(** Modelled from the spec: [Ellipsoid.pack] is not in the source under
    study; it stores the radii. *)
Definition pack (value : ref) (array : list JS.value) (startingIndex : nat)
  (h : store) : outcome (list JS.value) :=
  radii ← read h value;
  Cartesian3.pack (Some radii) array startingIndex.

(** Modelled from the spec: [Ellipsoid.unpack(array, startingIndex, result)]
    is not in the source under study; it reads the radii into [result]
    and returns it. *)
Definition unpack (array : list JS.value) (startingIndex : nat) (result : ref)
  (h : store) : ref * store :=
  let radii := Cartesian3.unpack array startingIndex in
  (result, <[result := {| _radii := radii |}]> h).

End Ellipsoid.

(** ** The geometry description and its serializer *)

Module PolylineVolumeOutlineGeometry.

(** The constructor's [options] object. *)
Record Options : Type := {
  polylinePositions : option (list (option Cartesian3.t));
  shapePositions : option (list (option Cartesian2.t));
  ellipsoid : option Ellipsoid.ref;
  height : value;
  cornerType : value;
  granularity : value
}.

(** [defaultValue.EMPTY_OBJECT] *)
Definition EMPTY_OBJECT : Options :=
  {| polylinePositions := None; shapePositions := None; ellipsoid := None;
     height := undefined; cornerType := undefined; granularity := undefined |}.

(** An instance, as the constructor leaves it. *)
Record t : Type := {
  _positions : list (option Cartesian3.t);
  _shape : list (option Cartesian2.t);
  _ellipsoid : Ellipsoid.ref;
  _cornerType : value;
  _granularity : value;
  packedLength : nat
}.

(** Module-level state: the ellipsoid objects, among them
    [scratchEllipsoid], and the [scratchOptions] object. *)
Record state : Type := {
  ellipsoids : gmap positive Ellipsoid.object;
  scratchOptions : Options
}.

Definition scratchEllipsoid : Ellipsoid.ref := 3%positive.

(** The state once the module is loaded. *)
Definition initial : state :=
  {| ellipsoids :=
       <[scratchEllipsoid := {| Ellipsoid._radii := Ellipsoid.UNIT_SPHERE_radii |}]>
       (<[Ellipsoid.UNIT_SPHERE := {| Ellipsoid._radii := Ellipsoid.UNIT_SPHERE_radii |}]>
       (<[Ellipsoid.WGS84 := {| Ellipsoid._radii := Ellipsoid.WGS84_radii |}]> ∅));
     scratchOptions :=
       {| polylinePositions := None; shapePositions := None;
          ellipsoid := Some scratchEllipsoid; height := undefined;
          cornerType := undefined; granularity := undefined |} |}.

(** [new PolylineVolumeOutlineGeometry(options)] *)
Definition new (options : option Options) (h : gmap positive Ellipsoid.object)
  : outcome (t * gmap positive Ellipsoid.object) :=
  let options := defaultOpt options EMPTY_OBJECT in
  match polylinePositions options with
  | None => Throws (DeveloperError "options.polylinePositions is required.")
  | Some positions =>
  match shapePositions options with
  | None => Throws (DeveloperError "options.shapePositions is required.")
  | Some shape =>
      '(e, h) ← Ellipsoid.clone (defaultOpt (ellipsoid options) Ellipsoid.WGS84) None h;
      let numComponents := (1 + length positions * Cartesian3.packedLength)%nat in
      let numComponents := (numComponents + (1 + length shape * Cartesian2.packedLength))%nat in
      Returns
        ({| _positions := positions;
            _shape := shape;
            _ellipsoid := e;
            _cornerType := defaultValue (cornerType options) CornerType.ROUNDED;
            _granularity := defaultValue (granularity options) CesiumMath.RADIANS_PER_DEGREE;
            packedLength := (numComponents + Ellipsoid.packedLength + 2)%nat |}, h)
  end end.

(** [positions[i]] on an array of points: a hole and a slot past the end
    both read as [undefined]. *)
Definition at_index {A} (a : list (option A)) (i : nat) : option A :=
  match a !! i with Some v => v | None => None end.

(** [PolylineVolumeOutlineGeometry.pack(value, array, startingIndex)] *)
Definition pack (value : option t) (array : option (list JS.value))
  (startingIndex : option nat) (h : gmap positive Ellipsoid.object)
  : outcome (list JS.value) :=
  match value with
  | None => Throws (DeveloperError "value is required")
  | Some value =>
  match array with
  | None => Throws (DeveloperError "array is required")
  | Some array =>
      let startingIndex := defaultOpt startingIndex 0%nat in
      let positions := _positions value in
      let length := List.length positions in
      let array := JS.set array startingIndex (number (of_nat length)) in
      let startingIndex := S startingIndex in
      '(array, startingIndex) ←
        for_loop length 0 (fun i '(array, startingIndex) =>
          array ← Cartesian3.pack (at_index positions i) array startingIndex;
          Returns (array, (startingIndex + Cartesian3.packedLength)%nat))
        (array, startingIndex);
      let shape := _shape value in
      let length := List.length shape in
      let array := JS.set array startingIndex (number (of_nat length)) in
      let startingIndex := S startingIndex in
      '(array, startingIndex) ←
        for_loop length 0 (fun i '(array, startingIndex) =>
          array ← Cartesian2.pack (at_index shape i) array startingIndex;
          Returns (array, (startingIndex + Cartesian2.packedLength)%nat))
        (array, startingIndex);
      array ← Ellipsoid.pack (_ellipsoid value) array startingIndex h;
      let startingIndex := (startingIndex + Ellipsoid.packedLength)%nat in
      let array := JS.set array startingIndex (_cornerType value) in
      let startingIndex := S startingIndex in
      Returns (JS.set array startingIndex (_granularity value))
  end end.

(** [PolylineVolumeOutlineGeometry.unpack(array, startingIndex, result)] *)
Definition unpack (array : option (list JS.value)) (startingIndex : option nat)
  (result : option t) (s : state) : outcome (t * state) :=
  match array with
  | None => Throws (DeveloperError "array is required")
  | Some array =>
      let startingIndex := defaultOpt startingIndex 0%nat in
      let length := JS.get array startingIndex in
      let startingIndex := S startingIndex in
      positions ← new_Array length;
      '(positions, startingIndex) ←
        for_loop (trips_value length) 0 (fun i '(positions, startingIndex) =>
          Returns (set_with None positions i (Some (Cartesian3.unpack array startingIndex)),
                   (startingIndex + Cartesian3.packedLength)%nat))
        (positions, startingIndex);
      let length := JS.get array startingIndex in
      let startingIndex := S startingIndex in
      shape ← new_Array length;
      '(shape, startingIndex) ←
        for_loop (trips_value length) 0 (fun i '(shape, startingIndex) =>
          Returns (set_with None shape i (Some (Cartesian2.unpack array startingIndex)),
                   (startingIndex + Cartesian2.packedLength)%nat))
        (shape, startingIndex);
      let '(ellipsoid, h) :=
        Ellipsoid.unpack array startingIndex scratchEllipsoid (ellipsoids s) in
      let startingIndex := (startingIndex + Ellipsoid.packedLength)%nat in
      let cornerType := JS.get array startingIndex in
      let startingIndex := S startingIndex in
      let granularity := JS.get array startingIndex in
      match result with
      | None =>
          let scratchOptions :=
            {| polylinePositions := Some positions;
               shapePositions := Some shape;
               ellipsoid := PolylineVolumeOutlineGeometry.ellipsoid (scratchOptions s);
               height := height (scratchOptions s);
               cornerType := cornerType;
               granularity := granularity |} in
          '(g, h) ← new (Some scratchOptions) h;
          Returns (g, {| ellipsoids := h; scratchOptions := scratchOptions |})
      | Some result =>
          '(e, h) ← Ellipsoid.clone ellipsoid (Some (_ellipsoid result)) h;
          Returns
            ({| _positions := positions;
                _shape := shape;
                _ellipsoid := e;
                _cornerType := cornerType;
                _granularity := granularity;
                packedLength := packedLength result |},
             {| ellipsoids := h; scratchOptions := scratchOptions s |})
      end
  end.

End PolylineVolumeOutlineGeometry.

(** ** Collaborators of the geometry computation *)

Module ComponentDatatype.
Inductive t : Type := DOUBLE.
End ComponentDatatype.

Module PrimitiveType.
Inductive t : Type := LINES.
End PrimitiveType.

Module WindingOrder.
Inductive t : Type := CLOCKWISE | COUNTER_CLOCKWISE.

Global Instance eq_dec : EqDecision t.
Proof. solve_decision. Defined.
End WindingOrder.

Module IndexDatatype.

Definition SIXTY_FOUR_KILOBYTES : Q := 64 * 1024.

(** Modelled from the spec: [IndexDatatype.createTypedArray] is not in the
    source under study; the index width is chosen from the vertex count,
    16-bit if it fits, else 32-bit, and the buffer has the length, or the
    contents, it is given. *)
Definition width (numberOfVertices : Q) : Z :=
  if Qle_bool SIXTY_FOUR_KILOBYTES numberOfVertices then 32 else 16.

Definition createTypedArray (numberOfVertices : Q) (indicesLength : Q)
  : outcome TypedArray :=
  TypedArray_new (width numberOfVertices) indicesLength.

Definition createTypedArray_from (numberOfVertices : Q) (indices : TypedArray)
  : TypedArray :=
  TypedArray_from (width numberOfVertices) indices.

End IndexDatatype.

Module PolygonPipeline.

Local Open Scope Q_scope.

(** Modelled from the spec: [PolygonPipeline] is not in the source under
    study.  The coordinates of a shape, when every element is a point and
    every coordinate a number; arithmetic on [undefined] is not a number. *)
Definition coordinates (p : option Cartesian2.t) : outcome (Q * Q) :=
  match p with
  | None => Throws TypeError
  | Some p =>
      match Cartesian2.x p, Cartesian2.y p with
      | number x, number y => Returns (x, y)
      | _, _ => NonFinite
      end
  end.

Fixpoint all_coordinates (shape : list (option Cartesian2.t)) : outcome (list (Q * Q)) :=
  match shape with
  | [] => Returns []
  | p :: shape =>
      c ← coordinates p; cs ← all_coordinates shape; Returns (c :: cs)
  end.

Definition cross (v0 v1 : Q * Q) : Q := fst v0 * snd v1 - fst v1 * snd v0.

(** The shoelace terms of the edges of an open chain that starts at [v0]. *)
Fixpoint chain (v0 : Q * Q) (rest : list (Q * Q)) : Q :=
  match rest with
  | [] => 0
  | v1 :: rest => cross v0 v1 + chain v1 rest
  end.

(** Modelled from the spec: [PolygonPipeline.computeArea2D] is not in the
    source under study; it is the shoelace formula, half the sum of the
    cross terms over the edges of the closed polygon. *)
Definition signedArea (points : list (Q * Q)) : Q :=
  match points with
  | [] => 0
  | first :: rest => (chain first rest + cross (List.last rest first) first) * (1 # 2)
  end.

Definition computeArea2D (positions : list (option Cartesian2.t)) : outcome Q :=
  points ← all_coordinates positions; Returns (signedArea points).

(** Modelled from the spec: [PolygonPipeline.computeWindingOrder2D] is not
    in the source under study; a negative signed area is clockwise. *)
Definition computeWindingOrder2D (positions : list (option Cartesian2.t))
  : outcome WindingOrder.t :=
  area ← computeArea2D positions;
  Returns (if Qlt_le_dec area 0 then WindingOrder.CLOCKWISE
           else WindingOrder.COUNTER_CLOCKWISE).

End PolygonPipeline.

(** ** The topology builder and [createGeometry] *)

Record GeometryAttribute : Type := {
  componentDatatype : ComponentDatatype.t;
  componentsPerAttribute : nat;
  values : list Q
}.

Record GeometryAttributes : Type := { position : option GeometryAttribute }.

Section Geometry.

Local Open Scope Q_scope.

(** The bounding volume, the duplicate filters and the sweeper are opaque
    collaborators: the core only passes values to them and on from them. *)
Context {BoundingSphere BoundingRectangle : Type}.
Variable BoundingSphere_fromVertices : list Q -> BoundingSphere.
Variable BoundingRectangle_fromPoints : list (option Cartesian2.t) -> BoundingRectangle.
Variable removeDuplicatesFromPositions :
  list (option Cartesian3.t) -> Ellipsoid.ref -> gmap positive Ellipsoid.object ->
  list (option Cartesian3.t).
Variable removeDuplicatesFromShape :
  list (option Cartesian2.t) -> list (option Cartesian2.t).
Variable computePositions :
  list (option Cartesian3.t) -> list (option Cartesian2.t) -> BoundingRectangle ->
  PolylineVolumeOutlineGeometry.t -> gmap positive Ellipsoid.object -> bool -> list Q.

Record Geometry : Type := {
  attributes : GeometryAttributes;
  indices : TypedArray;
  boundingSphere : BoundingSphere;
  primitiveType : PrimitiveType.t
}.

(** One ring: the loop over [j] and the closing pair (lines 61-66, 70-75). *)
Definition writeRing (shapeLength offset : Q) (st : TypedArray * nat)
  : outcome (TypedArray * nat) :=
  '(indices, index) ←
    for_loop (trips (shapeLength - 1)) 0 (fun j '(indices, index) =>
      let indices := TypedArray_set indices index (of_nat j + offset) in
      let index := S index in
      let indices := TypedArray_set indices index (of_nat j + offset + 1) in
      let index := S index in
      Returns (indices, index)) st;
  let indices := TypedArray_set indices index (shapeLength - 1 + offset) in
  let index := S index in
  let indices := TypedArray_set indices index offset in
  let index := S index in
  Returns (indices, index).

(** Lines 52-84 of [computeAttributes]: the index buffer and the value of
    [index] once the three groups are written.  With an empty shape
    [positionLength / shapeLength] divides by zero. *)
Definition computeIndices (positions : list Q) (shape : list (option Cartesian2.t))
  : outcome (TypedArray * nat) :=
  let shapeLength := of_nat (length shape) in
  let vertexCount := of_nat (length positions) / 3 in
  let positionLength := of_nat (length positions) / 3 in
  if Qeq_bool shapeLength 0 then NonFinite else
  let shapeCount := positionLength / shapeLength in
  indices ← IndexDatatype.createTypedArray vertexCount (2 * shapeLength * (shapeCount + 1));
  let index := 0%nat in
  let i := 0 in
  let offset := i * shapeLength in
  '(indices, index) ← writeRing shapeLength offset (indices, index);
  let i := shapeCount - 1 in
  let offset := i * shapeLength in
  '(indices, index) ← writeRing shapeLength offset (indices, index);
  for_loop (trips (shapeCount - 1)) 0 (fun i st =>
    let firstOffset := shapeLength * of_nat i in
    let secondOffset := firstOffset + shapeLength in
    for_loop (trips shapeLength) 0 (fun j '(indices, index) =>
      let indices := TypedArray_set indices index (of_nat j + firstOffset) in
      let index := S index in
      let indices := TypedArray_set indices index (of_nat j + secondOffset) in
      let index := S index in
      Returns (indices, index)) st)
    (indices, index).

(** [computeAttributes(positions, shape)] *)
Definition computeAttributes (positions : list Q) (shape : list (option Cartesian2.t))
  : outcome Geometry :=
  let attributes :=
    {| position := Some {| componentDatatype := ComponentDatatype.DOUBLE;
                           componentsPerAttribute := 3;
                           values := positions |} |} in
  let vertexCount := of_nat (length positions) / 3 in
  '(indices, _) ← computeIndices positions shape;
  Returns
    {| attributes := attributes;
       indices := IndexDatatype.createTypedArray_from vertexCount indices;
       boundingSphere := BoundingSphere_fromVertices positions;
       primitiveType := PrimitiveType.LINES |}.

(** [PolylineVolumeOutlineGeometry.createGeometry(polylineVolumeOutlineGeometry)] *)
Definition createGeometry (polylineVolumeOutlineGeometry : PolylineVolumeOutlineGeometry.t)
  (h : gmap positive Ellipsoid.object) : outcome Geometry :=
  let positions := PolylineVolumeOutlineGeometry._positions polylineVolumeOutlineGeometry in
  let cleanPositions :=
    removeDuplicatesFromPositions positions
      (PolylineVolumeOutlineGeometry._ellipsoid polylineVolumeOutlineGeometry) h in
  let shape2D := PolylineVolumeOutlineGeometry._shape polylineVolumeOutlineGeometry in
  let shape2D := removeDuplicatesFromShape shape2D in
  if decide (length cleanPositions < 2)%nat then
    Throws (DeveloperError "Count of unique polyline positions must be greater than 1.")
  else if decide (length shape2D < 3)%nat then
    Throws (DeveloperError "Count of unique shape positions must be at least 3.")
  else
    order ← PolygonPipeline.computeWindingOrder2D shape2D;
    let shape2D :=
      if decide (order = WindingOrder.CLOCKWISE) then reverse shape2D else shape2D in
    let boundingRectangle := BoundingRectangle_fromPoints shape2D in
    let computedPositions :=
      computePositions cleanPositions shape2D boundingRectangle
        polylineVolumeOutlineGeometry h false in
    computeAttributes computedPositions shape2D.

End Geometry.

(** ** The outline as the specification words it *)

Module Outline.

(** Start ring: pairs (j, j+1) for j from 0 to shapeLength-2, then the
    closing pair (shapeLength-1, 0). *)
Definition startRing (shapeLength : nat) : list (nat * nat) :=
  ((fun j => (j, j + 1)%nat) <$> seq 0 (shapeLength - 1)) ++ [((shapeLength - 1)%nat, 0%nat)].

Definition shift (offset : nat) (segment : nat * nat) : nat * nat :=
  ((fst segment + offset)%nat, (snd segment + offset)%nat).

(** End ring: the same pattern, every index shifted by
    (shapeCount-1)*shapeLength. *)
Definition endRing (shapeLength shapeCount : nat) : list (nat * nat) :=
  shift ((shapeCount - 1) * shapeLength) <$> startRing shapeLength.

(** Longitudinal connectors: for each i from 0 to shapeCount-2 and each j
    from 0 to shapeLength-1, the pair (j + i*shapeLength, j + (i+1)*shapeLength). *)
Definition connectors (shapeLength shapeCount : nat) : list (nat * nat) :=
  i ← seq 0 (shapeCount - 1);
  (fun j => (j + i * shapeLength, j + (i + 1) * shapeLength)%nat) <$> seq 0 shapeLength.

Definition segments (shapeLength shapeCount : nat) : list (nat * nat) :=
  startRing shapeLength ++ endRing shapeLength shapeCount ++ connectors shapeLength shapeCount.

(** An index buffer lists the two end points of each segment in turn. *)
Definition flatten (segments : list (nat * nat)) : list nat :=
  s ← segments; [fst s; snd s].

Definition indexBuffer (shapeLength shapeCount : nat) : list nat :=
  flatten (segments shapeLength shapeCount).

End Outline.


(** ** Auxiliary notions for the proofs *)

(** A buffer of [cap] slots whose first slots hold [xs], the rest still zero. *)
Definition filled (w : Z) (cap : nat) (xs : list Z) : TypedArray :=
  {| bits := w; elements := xs ++ replicate (cap - length xs) 0%Z |}.

(** An index as a [w]-bit buffer stores it. *)
Definition wrap (w : Z) (n : nat) : Z := (Z.of_nat n mod 2 ^ w)%Z.

(** The index width for a whole number of vertices. *)
Definition indexWidth (vertexCount : nat) : Z :=
  if (65536 <=? Z.of_nat vertexCount)%Z then 32%Z else 16%Z.

(** ** The wire format as the specification words it *)

Module Wire.

Definition point3 (p : Cartesian3.t) : list value :=
  [Cartesian3.x p; Cartesian3.y p; Cartesian3.z p].

Definition point2 (p : Cartesian2.t) : list value :=
  [Cartesian2.x p; Cartesian2.y p].

(** Path count, the path points (x, y, z each), shape count, the shape
    points (x, y each), the reference-surface slots, the corner-style code,
    the granularity. *)
Definition format (path : list Cartesian3.t) (shape : list Cartesian2.t)
  (radii : Cartesian3.t) (cornerType granularity : value) : list value :=
  [number (of_nat (length path))] ++ (path ≫= point3)
  ++ [number (of_nat (length shape))] ++ (shape ≫= point2)
  ++ point3 radii ++ [cornerType; granularity].

(** The array [array] after the slots [slots] are stored from [offset] on:
    what lies before and after them stays, a gap up to [offset] is holes. *)
Definition stored (array : list value) (offset : nat) (slots : list value) : list value :=
  take offset (array ++ replicate (offset - length array) undefined)
  ++ slots ++ drop (offset + length slots) array.

(** The slot count needed to pack an instance with these arrays. *)
Definition slotsNeeded (v : PolylineVolumeOutlineGeometry.t) : nat :=
  1 + length (PolylineVolumeOutlineGeometry._positions v) * Cartesian3.packedLength
  + 1 + length (PolylineVolumeOutlineGeometry._shape v) * Cartesian2.packedLength
  + Ellipsoid.packedLength + 2.

End Wire.

(** A valid instance: its arrays hold points only and have array lengths,
    its ellipsoid is in the store, its corner type and granularity are set. *)
Record validSpec (v : PolylineVolumeOutlineGeometry.t) (h : gmap positive Ellipsoid.object)
  (path : list Cartesian3.t) (shape : list Cartesian2.t) (radii : Cartesian3.t) : Prop := {
  valid_positions : PolylineVolumeOutlineGeometry._positions v = Some <$> path;
  valid_shape : PolylineVolumeOutlineGeometry._shape v = Some <$> shape;
  valid_ellipsoid :
    h !! PolylineVolumeOutlineGeometry._ellipsoid v = Some {| Ellipsoid._radii := radii |};
  valid_path_length : (Z.of_nat (length path) <= MAX_ARRAY_LENGTH)%Z;
  valid_shape_length : (Z.of_nat (length shape) <= MAX_ARRAY_LENGTH)%Z;
  valid_cornerType : defined (PolylineVolumeOutlineGeometry._cornerType v) = true;
  valid_granularity : defined (PolylineVolumeOutlineGeometry._granularity v) = true
}.

(** The module keeps [scratchOptions.ellipsoid] on the scratch ellipsoid. *)
Definition scratchLinked (s : PolylineVolumeOutlineGeometry.state) : Prop :=
  PolylineVolumeOutlineGeometry.ellipsoid (PolylineVolumeOutlineGeometry.scratchOptions s)
  = Some PolylineVolumeOutlineGeometry.scratchEllipsoid.

(** The radii an instance holds at the moment. *)
Definition radiiOf (h : gmap positive Ellipsoid.object) (v : PolylineVolumeOutlineGeometry.t)
  : option Cartesian3.t :=
  Ellipsoid._radii <$> h !! PolylineVolumeOutlineGeometry._ellipsoid v.

(** ** Concrete inputs used to exercise the theorems *)

Definition point3 (x y z : Z) : Cartesian3.t :=
  {| Cartesian3.x := number (inject_Z x);
     Cartesian3.y := number (inject_Z y);
     Cartesian3.z := number (inject_Z z) |}.

Definition point2 (x y : Z) : Cartesian2.t :=
  {| Cartesian2.x := number (inject_Z x); Cartesian2.y := number (inject_Z y) |}.

(** A path of two points and one of four. *)
Definition shortPath : list Cartesian3.t := [point3 1 2 3; point3 4 5 6].

Definition longPath : list Cartesian3.t :=
  [point3 1 2 3; point3 4 5 6; point3 7 8 9; point3 10 11 12].

(** A triangle given clockwise, and a hexagon given counter-clockwise. *)
Definition triangle : list Cartesian2.t := [point2 0 0; point2 0 1; point2 1 0].

Definition hexagon : list Cartesian2.t :=
  [point2 2 0; point2 1 2; point2 (-1) 2; point2 (-2) 0; point2 (-1) (-2); point2 1 (-2)].

(** The triangle as a shape array, and the vertex buffer of a sweep that
    emits two cross-sections of it. *)
Definition triangleShape : list (option Cartesian2.t) := Some <$> triangle.

Definition twoTriangles : list Q := replicate 18 0%Q.

(** The options of a short path with a hexagonal shape, the instance the
    constructor builds from them in the initial store, and that store. *)
Definition hexagonOptions : PolylineVolumeOutlineGeometry.Options :=
  {| PolylineVolumeOutlineGeometry.polylinePositions := Some (Some <$> shortPath);
     PolylineVolumeOutlineGeometry.shapePositions := Some (Some <$> hexagon);
     PolylineVolumeOutlineGeometry.ellipsoid := None;
     PolylineVolumeOutlineGeometry.height := undefined;
     PolylineVolumeOutlineGeometry.cornerType := undefined;
     PolylineVolumeOutlineGeometry.granularity := undefined |}.

Definition hexagonSpec : PolylineVolumeOutlineGeometry.t :=
  {| PolylineVolumeOutlineGeometry._positions := Some <$> shortPath;
     PolylineVolumeOutlineGeometry._shape := Some <$> hexagon;
     PolylineVolumeOutlineGeometry._ellipsoid := 4%positive;
     PolylineVolumeOutlineGeometry._cornerType := CornerType.ROUNDED;
     PolylineVolumeOutlineGeometry._granularity := CesiumMath.RADIANS_PER_DEGREE;
     PolylineVolumeOutlineGeometry.packedLength := 25 |}.

Definition exampleStore : gmap positive Ellipsoid.object :=
  <[4%positive := {| Ellipsoid._radii := Ellipsoid.WGS84_radii |}]>
    (PolylineVolumeOutlineGeometry.ellipsoids PolylineVolumeOutlineGeometry.initial).

Definition exampleState : PolylineVolumeOutlineGeometry.state :=
  {| PolylineVolumeOutlineGeometry.ellipsoids := exampleStore;
     PolylineVolumeOutlineGeometry.scratchOptions :=
       PolylineVolumeOutlineGeometry.scratchOptions PolylineVolumeOutlineGeometry.initial |}.

(** A long path with a triangular shape on the unit sphere, mitered. *)
Definition triangleSpec : PolylineVolumeOutlineGeometry.t :=
  {| PolylineVolumeOutlineGeometry._positions := Some <$> longPath;
     PolylineVolumeOutlineGeometry._shape := Some <$> triangle;
     PolylineVolumeOutlineGeometry._ellipsoid := Ellipsoid.UNIT_SPHERE;
     PolylineVolumeOutlineGeometry._cornerType := CornerType.MITERED;
     PolylineVolumeOutlineGeometry._granularity := number (1 # 10);
     PolylineVolumeOutlineGeometry.packedLength := 25 |}.

(** An instance whose path is a single point. *)
Definition singlePointSpec : PolylineVolumeOutlineGeometry.t :=
  {| PolylineVolumeOutlineGeometry._positions := [Some (point3 1 2 3)];
     PolylineVolumeOutlineGeometry._shape := Some <$> triangle;
     PolylineVolumeOutlineGeometry._ellipsoid := 4%positive;
     PolylineVolumeOutlineGeometry._cornerType := CornerType.ROUNDED;
     PolylineVolumeOutlineGeometry._granularity := CesiumMath.RADIANS_PER_DEGREE;
     PolylineVolumeOutlineGeometry.packedLength := 15 |}.

(** Stand-ins for the collaborators: filters that find no duplicate, and a
    sweeper that emits two cross-sections of the shape. *)
Definition keepPositions (positions : list (option Cartesian3.t)) (e : Ellipsoid.ref)
  (h : gmap positive Ellipsoid.object) : list (option Cartesian3.t) := positions.

Definition keepShape (shape : list (option Cartesian2.t)) : list (option Cartesian2.t) :=
  shape.

Definition sweepTwice (positions : list (option Cartesian3.t))
  (shape : list (option Cartesian2.t)) (boundingRectangle : unit)
  (g : PolylineVolumeOutlineGeometry.t) (h : gmap positive Ellipsoid.object)
  (outline : bool) : list Q :=
  replicate (length shape * 2 * 3) 0%Q.

(** The wire formats of the two instances, an array that holds the first
    one from slot 2 on, and a vertex buffer that is no whole number of
    cross-sections of a triangle. *)
Definition hexagonFormat : list value :=
  Wire.format shortPath hexagon Ellipsoid.WGS84_radii
    CornerType.ROUNDED CesiumMath.RADIANS_PER_DEGREE.

Definition triangleFormat : list value :=
  Wire.format longPath triangle Ellipsoid.UNIT_SPHERE_radii
    CornerType.MITERED (number (1 # 10)).

Definition shiftedArray : list value := [number 9; number 9] ++ hexagonFormat ++ [number 7].

Definition raggedBuffer : list Q := replicate 10 0%Q.

(** ** Notions used by the further properties *)

(** The array [array] holds the slots [slots] from [offset] on. *)
Definition holdsAt (array : list value) (offset : nat) (slots : list value) : Prop :=
  take (length slots) (drop offset array) = slots.

(** The [packedLength] of the instance is the slot count [pack] needs. *)
Definition packedConsistent (v : PolylineVolumeOutlineGeometry.t) : Prop :=
  PolylineVolumeOutlineGeometry.packedLength v = Wire.slotsNeeded v.

(** Two instances describe the same volume outline, apart from the
    reference surface, which is held by reference. *)
Definition sameDescription (v v' : PolylineVolumeOutlineGeometry.t) : Prop :=
  PolylineVolumeOutlineGeometry._positions v' = PolylineVolumeOutlineGeometry._positions v /\
  PolylineVolumeOutlineGeometry._shape v' = PolylineVolumeOutlineGeometry._shape v /\
  PolylineVolumeOutlineGeometry._cornerType v' = PolylineVolumeOutlineGeometry._cornerType v /\
  PolylineVolumeOutlineGeometry._granularity v' = PolylineVolumeOutlineGeometry._granularity v.

(** A count slot that [new Array] accepts: a number must be an array
    length; anything else is taken as the single element. *)
Definition validCount (count : value) : bool :=
  match count with
  | undefined => true
  | number q => is_array_length q
  end.

(** A segment without its direction: the smaller end first. *)
Definition unordered (segment : nat * nat) : nat * nat :=
  (Nat.min (fst segment) (snd segment), Nat.max (fst segment) (snd segment)).

(** ** Rational arithmetic of the model *)

Section Rationals.

Local Open Scope Q_scope.

Lemma truncate_inject_Z (z : Z) : truncate (inject_Z z) = z.
Proof.
  unfold truncate. destruct (Qle_bool 0 (inject_Z z)).
  - apply Qfloor_Z.
  - apply Qceiling_Z.
Qed.

Global Instance truncate_comp : Proper (Qeq ==> eq) truncate.
Proof.
  intros q q' Hq. unfold truncate.
  assert (Qle_bool 0 q = Qle_bool 0 q') as ->.
  { destruct (Qle_bool 0 q) eqn:E, (Qle_bool 0 q') eqn:E'; try done.
    - apply Qle_bool_iff in E. rewrite Hq in E. apply Qle_bool_iff in E. congruence.
    - apply Qle_bool_iff in E'. rewrite <- Hq in E'. apply Qle_bool_iff in E'. congruence. }
  destruct (Qle_bool 0 q'); [by apply Qfloor_comp | by apply Qceiling_comp].
Qed.

Lemma truncate_integer (q : Q) (z : Z) : q == inject_Z z -> truncate q = z.
Proof. intros ->. apply truncate_inject_Z. Qed.

Lemma trips_integer (q : Q) (z : Z) : q == inject_Z z -> trips q = Z.to_nat z.
Proof. intros H. unfold trips. by rewrite (Qceiling_comp _ _ H), Qceiling_Z. Qed.

Lemma ToUint_integer (w : Z) (q : Q) (z : Z) :
  q == inject_Z z -> ToUint w q = (z mod 2 ^ w)%Z.
Proof. intros H. unfold ToUint. by rewrite (truncate_integer _ _ H). Qed.

Lemma of_nat_plus (a b : nat) : of_nat (a + b) == of_nat a + of_nat b.
Proof. unfold of_nat. by rewrite Nat2Z.inj_add, inject_Z_plus. Qed.

Lemma of_nat_mult (a b : nat) : of_nat (a * b) == of_nat a * of_nat b.
Proof. unfold of_nat. by rewrite Nat2Z.inj_mul, inject_Z_mult. Qed.

End Rationals.

Ltac of_nat_ring :=
  repeat (rewrite of_nat_plus || rewrite of_nat_mult);
  change (of_nat 0) with 0%Q; change (of_nat 1) with 1%Q; change (of_nat 2) with 2%Q;
  change (of_nat 3) with 3%Q; ring.

(** ** Writing a typed array front to back *)

Section TypedArrayWrites.

Local Open Scope Q_scope.

Lemma insert_next (cap : nat) (xs : list Z) (v : Z) :
  (length xs < cap)%nat ->
  <[length xs := v]> (xs ++ replicate (cap - length xs) 0%Z)
  = (xs ++ [v]) ++ replicate (cap - length (xs ++ [v])) 0%Z.
Proof.
  intros Hlt. rewrite insert_app_r_alt; [|lia].
  rewrite Nat.sub_diag, length_app. simpl.
  replace (cap - length xs)%nat with (S (cap - (length xs + 1)))%nat by lia.
  simpl. by rewrite <- app_assoc.
Qed.

Lemma set_filled w cap xs (q : Q) (n : nat) :
  (length xs < cap)%nat -> q == of_nat n ->
  TypedArray_set (filled w cap xs) (length xs) q = filled w cap (xs ++ [wrap w n]).
Proof.
  intros Hlt Hq. unfold TypedArray_set, filled; simpl.
  rewrite (ToUint_integer _ _ _ Hq). f_equal. by apply insert_next.
Qed.

(** A loop whose body appends one segment per turn. *)
Lemma pair_loop w cap (va vb : nat -> Q) (fa fb : nat -> nat) :
  (forall j, va j == of_nat (fa j)) -> (forall j, vb j == of_nat (fb j)) ->
  forall (n from : nat) (xs : list Z),
    (length xs + 2 * n <= cap)%nat ->
    for_loop n from (fun j '(indices, index) =>
        let indices := TypedArray_set indices index (va j) in
        let index := S index in
        let indices := TypedArray_set indices index (vb j) in
        let index := S index in
        Returns (indices, index)) (filled w cap xs, length xs)
    = Returns (filled w cap (xs ++ (wrap w <$> Outline.flatten ((fun j => (fa j, fb j)) <$> seq from n))),
               (length xs + 2 * n)%nat).
Proof.
  intros Ha Hb. induction n as [|n IH]; intros from xs Hcap.
  - simpl. rewrite app_nil_r. do 2 f_equal. lia.
  - cbn [for_loop JS.bind].
    rewrite (set_filled _ _ _ _ (fa from)); [|lia|apply Ha].
    replace (S (length xs)) with (length (xs ++ [wrap w (fa from)])) at 1
      by (rewrite length_app; simpl; lia).
    rewrite (set_filled _ _ _ _ (fb from)); [|rewrite length_app; simpl; lia|apply Hb].
    replace (S (S (length xs))) with (length ((xs ++ [wrap w (fa from)]) ++ [wrap w (fb from)]))
      by (rewrite !length_app; simpl; lia).
    rewrite IH by (rewrite !length_app; simpl; lia).
    rewrite !length_app; simpl. rewrite <- !app_assoc. simpl.
    do 2 f_equal. lia.
Qed.

End TypedArrayWrites.

(** ** The topology builder writes the three groups *)

Section TopologyBuilder.

Local Open Scope Q_scope.

Lemma flatten_app (s1 s2 : list (nat * nat)) :
  Outline.flatten (s1 ++ s2) = Outline.flatten s1 ++ Outline.flatten s2.
Proof. unfold Outline.flatten. apply bind_app. Qed.

Lemma length_flatten (s : list (nat * nat)) :
  length (Outline.flatten s) = (2 * length s)%nat.
Proof.
  induction s as [|x s IH]; [done|].
  change (Outline.flatten (x :: s)) with ([fst x; snd x] ++ Outline.flatten s).
  rewrite length_app, IH. simpl. lia.
Qed.

Lemma length_startRing (L : nat) : (1 <= L)%nat -> length (Outline.startRing L) = L.
Proof.
  intros HL. unfold Outline.startRing.
  rewrite length_app, length_fmap, length_seq. simpl. lia.
Qed.

Lemma length_connectors (L C : nat) :
  length (Outline.connectors L C) = ((C - 1) * L)%nat.
Proof.
  unfold Outline.connectors.
  assert (forall (f : nat -> nat -> nat * nat) n from,
    length (i ← seq from n; f i <$> seq 0 L) = (n * L)%nat) as Haux.
  { intros f n. induction n as [|n IH]; intros from; [reflexivity|].
    simpl. rewrite length_app, length_fmap, length_seq, IH. lia. }
  apply (Haux (fun i j => (j + i * L, j + (i + 1) * L)%nat)).
Qed.

Lemma length_indexBuffer (L C : nat) :
  (1 <= L)%nat -> (1 <= C)%nat ->
  length (Outline.indexBuffer L C) = (2 * L * (C + 1))%nat.
Proof.
  intros HL HC. unfold Outline.indexBuffer, Outline.segments, Outline.endRing.
  rewrite length_flatten, !length_app, length_fmap, length_connectors.
  rewrite (length_startRing _ HL). nia.
Qed.

Lemma of_nat_pred (L : nat) : (1 <= L)%nat -> of_nat L - 1 == of_nat (L - 1).
Proof.
  intros HL. unfold of_nat. rewrite Nat2Z.inj_sub by done.
  change (Z.of_nat 1) with 1%Z. unfold Zminus. rewrite inject_Z_plus, inject_Z_opp. ring.
Qed.

Lemma writeRing_spec w cap (xs : list Z) (shapeLength offset : Q) (L o : nat) :
  shapeLength == of_nat L -> offset == of_nat o ->
  (1 <= L)%nat -> (length xs + 2 * L <= cap)%nat ->
  writeRing shapeLength offset (filled w cap xs, length xs)
  = Returns (filled w cap (xs ++ (wrap w <$> Outline.flatten (Outline.shift o <$> Outline.startRing L))),
             (length xs + 2 * L)%nat).
Proof.
  intros HL Ho H1 Hcap. unfold writeRing.
  assert (trips (shapeLength - 1) = (L - 1)%nat) as ->.
  { rewrite (trips_integer _ (Z.of_nat (L - 1))); [lia|].
    rewrite HL. by apply of_nat_pred. }
  rewrite (pair_loop w cap _ _ (fun j => (j + o)%nat) (fun j => (j + 1 + o)%nat)); cycle 1.
  - intros j. rewrite Ho. of_nat_ring.
  - intros j. rewrite Ho. of_nat_ring.
  - lia.
  - cbn [JS.bind mbind outcome_bind].
    set (ys := xs ++ _).
    assert (length ys = length xs + 2 * (L - 1))%nat as Hys.
    { unfold ys. rewrite length_app, length_fmap, length_flatten, length_fmap, length_seq. lia. }
    rewrite <- Hys.
    rewrite (set_filled _ _ _ _ (L - 1 + o)); cycle 1.
    { lia. }
    { rewrite HL, Ho, of_nat_plus. by rewrite of_nat_pred. }
    replace (S (length ys)) with (length (ys ++ [wrap w (L - 1 + o)]))
      by (rewrite length_app; simpl; lia).
    rewrite (set_filled _ _ _ _ o); cycle 1.
    { rewrite length_app; simpl. lia. }
    { done. }
    f_equal. f_equal.
    + f_equal. unfold ys, Outline.startRing.
      rewrite fmap_app, flatten_app, fmap_app, <- !app_assoc.
      rewrite <- list_fmap_compose. done.
    + rewrite !length_app. simpl. lia.
Qed.

Lemma connectors_spec w cap (shapeLength : Q) (L : nat) :
  shapeLength == of_nat L ->
  forall (n from : nat) (xs : list Z),
    (length xs + 2 * L * n <= cap)%nat ->
    for_loop n from (fun i st =>
      let firstOffset := shapeLength * of_nat i in
      let secondOffset := firstOffset + shapeLength in
      for_loop (trips shapeLength) 0 (fun j '(indices, index) =>
        let indices := TypedArray_set indices index (of_nat j + firstOffset) in
        let index := S index in
        let indices := TypedArray_set indices index (of_nat j + secondOffset) in
        let index := S index in
        Returns (indices, index)) st)
      (filled w cap xs, length xs)
    = Returns
        (filled w cap
           (xs ++ (wrap w <$> Outline.flatten
              (i ← seq from n;
               (fun j => (j + i * L, j + (i + 1) * L)%nat) <$> seq 0 L))),
         (length xs + 2 * L * n)%nat).
Proof.
  intros HL. assert (trips shapeLength = L) as HT.
  { rewrite (trips_integer _ (Z.of_nat L)); [lia|done]. }
  set (body := fun (i : nat) (st : TypedArray * nat) => _).
  assert (forall i xs, (length xs + 2 * L <= cap)%nat ->
    body i (filled w cap xs, length xs)
    = Returns (filled w cap (xs ++ (wrap w <$> Outline.flatten
                 ((fun j => (j + i * L, j + (i + 1) * L)%nat) <$> seq 0 L))),
               (length xs + 2 * L)%nat)) as Hbody.
  { intros i xs Hcap. unfold body. cbv zeta. rewrite HT.
    apply (pair_loop w cap _ _ (fun j => (j + i * L)%nat) (fun j => (j + (i + 1) * L)%nat)).
    - intros j. rewrite HL. of_nat_ring.
    - intros j. rewrite HL. of_nat_ring.
    - done. }
  induction n as [|n IH]; intros from xs Hcap.
  - simpl. rewrite app_nil_r. do 2 f_equal. lia.
  - cbn [for_loop]. rewrite Hbody by nia.
    cbn [JS.bind].
    set (ys := xs ++ _).
    assert (length ys = length xs + 2 * L)%nat as Hys.
    { unfold ys. rewrite length_app, length_fmap, length_flatten, length_fmap, length_seq. lia. }
    rewrite <- Hys. rewrite IH by nia.
    f_equal. f_equal.
    + f_equal. unfold ys. rewrite <- app_assoc. f_equal.
      rewrite <- fmap_app, <- flatten_app. done.
    + nia.
Qed.

Lemma width_integer (q : Q) (n : nat) :
  q == of_nat n -> IndexDatatype.width q = indexWidth n.
Proof.
  intros Hq. unfold IndexDatatype.width, indexWidth.
  destruct (Qle_bool IndexDatatype.SIXTY_FOUR_KILOBYTES q) eqn:E.
  - apply Qle_bool_iff in E. rewrite Hq in E.
    change IndexDatatype.SIXTY_FOUR_KILOBYTES with (inject_Z 65536) in E.
    unfold of_nat in E. rewrite <- Zle_Qle in E.
    by rewrite (proj2 (Z.leb_le _ _) E).
  - destruct (65536 <=? Z.of_nat n)%Z eqn:E'; [|done].
    apply Z.leb_le in E'. rewrite Zle_Qle in E'.
    assert (Qle_bool IndexDatatype.SIXTY_FOUR_KILOBYTES q = true); [|congruence].
    apply Qle_bool_iff. rewrite Hq. exact E'.
Qed.

Lemma filled_full w (xs : list Z) :
  filled w (length xs) xs = {| bits := w; elements := xs |}.
Proof. unfold filled. by rewrite Nat.sub_diag, app_nil_r. Qed.

(** The loops of [computeAttributes] write the three groups, each index
    reduced to the width of the buffer, and fill the buffer exactly. *)
Lemma computeIndices_spec (positions : list Q) (shape : list (option Cartesian2.t)) (L C : nat) :
  length shape = L -> length positions = (L * C * 3)%nat ->
  (1 <= L)%nat -> (1 <= C)%nat ->
  computeIndices positions shape
  = Returns ({| bits := indexWidth (L * C);
                elements := wrap (indexWidth (L * C)) <$> Outline.indexBuffer L C |},
             (2 * L * (C + 1))%nat).
Proof.
  intros HL HP H1 HC. unfold computeIndices. rewrite HL, HP.
  assert (~ of_nat L == 0) as HL0.
  { unfold of_nat. change 0 with (inject_Z 0). rewrite inject_Z_injective. lia. }
  assert (Qeq_bool (of_nat L) 0 = false) as ->.
  { destruct (Qeq_bool (of_nat L) 0) eqn:E; [|done]. by apply Qeq_bool_iff in E. }
  assert (of_nat (L * C * 3) / 3 == of_nat (L * C)) as HV.
  { rewrite (of_nat_mult (L * C) 3). change (of_nat 3) with 3. field. }
  assert (of_nat (L * C * 3) / 3 / of_nat L == of_nat C) as HS.
  { rewrite HV, of_nat_mult. field. done. }
  set (w := indexWidth (L * C)). set (cap := (2 * L * (C + 1))%nat).
  unfold IndexDatatype.createTypedArray, TypedArray_new.
  rewrite (width_integer _ _ HV). fold w.
  assert (truncate (2 * of_nat L * (of_nat (L * C * 3) / 3 / of_nat L + 1))
          = Z.of_nat cap) as ->.
  { apply truncate_integer. rewrite HS. fold (of_nat cap). unfold cap. of_nat_ring. }
  assert ((Z.of_nat cap <? 0)%Z = false) as -> by lia.
  rewrite Nat2Z.id. cbn [mbind outcome_bind JS.bind].
  replace {| bits := w; elements := replicate cap 0%Z |} with (filled w cap [])
    by (unfold filled; simpl; by rewrite Nat.sub_0_r).
  rewrite (writeRing_spec w cap [] _ _ L 0); cycle 1.
  { done. } { change (of_nat 0) with 0. ring. } { done. } { unfold cap. simpl. nia. }
  cbn [mbind outcome_bind JS.bind]. set (xs1 := [] ++ _).
  assert (length xs1 = 2 * L)%nat as Hxs1.
  { unfold xs1. simpl. rewrite length_fmap, length_flatten, length_fmap.
    by rewrite length_startRing. }
  replace (length [] + 2 * L)%nat with (length xs1) by (simpl; lia).
  rewrite (writeRing_spec w cap xs1 _ _ L ((C - 1) * L)); cycle 1.
  { done. }
  { rewrite HS. rewrite of_nat_mult, <- (of_nat_pred C) by done. ring. }
  { done. } { unfold cap. nia. }
  cbn [mbind outcome_bind JS.bind]. set (xs2 := xs1 ++ _).
  assert (length xs2 = 4 * L)%nat as Hxs2.
  { unfold xs2. rewrite length_app, Hxs1, length_fmap, length_flatten, !length_fmap.
    rewrite length_startRing by done. lia. }
  replace (length xs1 + 2 * L)%nat with (length xs2) by lia.
  assert (trips (of_nat (L * C * 3) / 3 / of_nat L - 1) = (C - 1)%nat) as ->.
  { rewrite (trips_integer _ (Z.of_nat (C - 1))); [lia|].
    rewrite HS. by apply of_nat_pred. }
  rewrite (connectors_spec w cap _ L); cycle 1.
  { done. } { unfold cap. nia. }
  set (xs3 := xs2 ++ _).
  assert (xs3 = wrap w <$> Outline.indexBuffer L C) as Hxs3.
  { unfold xs3, xs2, xs1, Outline.indexBuffer, Outline.segments, Outline.endRing,
      Outline.connectors.
    rewrite !flatten_app, !fmap_app. simpl. rewrite <- app_assoc. f_equal.
    rewrite <- (list_fmap_id (Outline.startRing L)) at 2.
    do 2 f_equal. apply list_fmap_ext. intros _ [a b] _.
    unfold Outline.shift. simpl. f_equal; lia. }
  assert (length xs3 = cap) as Hcap.
  { rewrite Hxs3, length_fmap. by apply length_indexBuffer. }
  f_equal. f_equal.
  - rewrite <- Hcap at 1. rewrite filled_full. by rewrite Hxs3.
  - rewrite Hxs2. unfold cap. nia.
Qed.

End TopologyBuilder.

(** ** Stores into a JavaScript array *)

Section ArrayWrites.

Lemma stored_single (array : list value) (offset : nat) (v : value) :
  JS.set array offset v = Wire.stored array offset [v].
Proof.
  unfold JS.set, set_with, Wire.stored. case_decide as H.
  - replace (offset - length array)%nat with 0%nat by lia. simpl.
    rewrite app_nil_r, insert_take_drop by done. by rewrite Nat.add_1_r.
  - rewrite take_ge by (rewrite length_app, length_replicate; lia).
    rewrite drop_ge by lia. by rewrite <- app_assoc.
Qed.

Lemma length_stored (array : list value) (offset : nat) (slots : list value) :
  length (Wire.stored array offset slots)
  = (offset + length slots + (length array - (offset + length slots)))%nat.
Proof.
  unfold Wire.stored.
  rewrite !length_app, length_take, length_app, length_replicate, length_drop. lia.
Qed.

Lemma stored_snoc (array : list value) (offset : nat) (slots : list value) (v : value) :
  JS.set (Wire.stored array offset slots) (offset + length slots) v
  = Wire.stored array offset (slots ++ [v]).
Proof.
  unfold JS.set, set_with. rewrite length_stored. case_decide as H.
  - unfold Wire.stored.
    assert (length (take offset (array ++ replicate (offset - length array) undefined)) = offset)
      as Hpre by (rewrite length_take, length_app, length_replicate; lia).
    rewrite insert_app_r_alt by lia. rewrite Hpre.
    rewrite insert_app_r_alt by lia.
    replace (offset + length slots - offset - length slots)%nat with 0%nat by lia.
    rewrite <- app_assoc. do 2 f_equal.
    rewrite insert_take_drop by (rewrite length_drop; lia).
    rewrite take_0, drop_drop, length_app. simpl. do 2 f_equal. lia.
  - replace (offset + length slots + (length array - (offset + length slots))
             - (offset + length slots + (length array - (offset + length slots))))%nat
      with 0%nat by lia.
    replace (offset + length slots
             - (offset + length slots + (length array - (offset + length slots))))%nat
      with 0%nat by lia.
    simpl. unfold Wire.stored.
    rewrite (drop_ge array (offset + length slots)) by lia.
    rewrite (drop_ge array (offset + length (slots ++ [v]))) by (rewrite length_app; simpl; lia).
    rewrite !app_nil_r. by rewrite <- !app_assoc.
Qed.

Lemma stored_app (array : list value) (offset : nat) (slots : list value) (vs : list value) :
  slots <> [] ->
  foldl (fun a iv => JS.set a (fst iv) (snd iv)) (Wire.stored array offset slots)
    (zip (seq (offset + length slots) (length vs)) vs)
  = Wire.stored array offset (slots ++ vs).
Proof.
  revert slots. induction vs as [|v vs IH]; intros slots Hne.
  - simpl. by rewrite app_nil_r.
  - simpl. rewrite stored_snoc.
    replace (S (offset + length slots)) with (offset + length (slots ++ [v]))%nat
      by (rewrite length_app; simpl; lia).
    rewrite IH by (by destruct slots). by rewrite <- app_assoc.
Qed.

Lemma get_stored (array : list value) (offset : nat) (slots : list value) (i : nat) (v : value) :
  slots !! i = Some v -> JS.get (Wire.stored array offset slots) (offset + i) = v.
Proof.
  intros Hi. unfold JS.get, Wire.stored.
  assert (length (take offset (array ++ replicate (offset - length array) undefined)) = offset)
    as Hpre by (rewrite length_take, length_app, length_replicate; lia).
  rewrite lookup_app_r by lia. rewrite Hpre.
  replace (offset + i - offset)%nat with i by lia.
  by rewrite (lookup_app_l_Some _ _ _ _ Hi).
Qed.

End ArrayWrites.

(** ** [pack] writes the wire format *)

Section Pack.

Import PolylineVolumeOutlineGeometry.

Lemma Cartesian3_pack_stored (p : Cartesian3.t) (array : list value) (offset : nat)
  (slots : list value) :
  Cartesian3.pack (Some p) (Wire.stored array offset slots) (offset + length slots)
  = Returns (Wire.stored array offset (slots ++ Wire.point3 p)).
Proof.
  unfold Cartesian3.pack, Wire.point3. rewrite stored_snoc.
  replace (offset + length slots + 1)%nat with (offset + length (slots ++ [Cartesian3.x p]))%nat
    by (rewrite length_app; simpl; lia).
  rewrite stored_snoc.
  replace (offset + length slots + 2)%nat
    with (offset + length ((slots ++ [Cartesian3.x p]) ++ [Cartesian3.y p]))%nat
    by (rewrite !length_app; simpl; lia).
  rewrite stored_snoc. by rewrite <- !app_assoc.
Qed.

Lemma Cartesian2_pack_stored (p : Cartesian2.t) (array : list value) (offset : nat)
  (slots : list value) :
  Cartesian2.pack (Some p) (Wire.stored array offset slots) (offset + length slots)
  = Returns (Wire.stored array offset (slots ++ Wire.point2 p)).
Proof.
  unfold Cartesian2.pack, Wire.point2. rewrite stored_snoc.
  replace (offset + length slots + 1)%nat with (offset + length (slots ++ [Cartesian2.x p]))%nat
    by (rewrite length_app; simpl; lia).
  rewrite stored_snoc. by rewrite <- !app_assoc.
Qed.

Lemma at_index_points {A} (points : list A) (i : nat) (p : A) :
  points !! i = Some p -> at_index (Some <$> points) i = Some p.
Proof. intros H. unfold at_index. by rewrite list_lookup_fmap, H. Qed.

Lemma pack_positions_loop (path : list Cartesian3.t) (array : list value) (offset : nat) :
  forall (n from : nat) (slots : list value),
    (from + n <= length path)%nat ->
    for_loop n from (fun i '(array, startingIndex) =>
        array ← Cartesian3.pack (at_index (Some <$> path) i) array startingIndex;
        Returns (array, (startingIndex + Cartesian3.packedLength)%nat))
      (Wire.stored array offset slots, (offset + length slots)%nat)
    = Returns (Wire.stored array offset (slots ++ (take n (drop from path) ≫= Wire.point3)),
               (offset + length (slots ++ (take n (drop from path) ≫= Wire.point3)))%nat).
Proof.
  induction n as [|n IH]; intros from slots Hn.
  - simpl. by rewrite app_nil_r.
  - destruct (lookup_lt_is_Some_2 path from ltac:(lia)) as [p Hp].
    cbn [for_loop]. rewrite (at_index_points _ _ _ Hp), Cartesian3_pack_stored.
    cbn [mbind outcome_bind JS.bind].
    replace (offset + length slots + Cartesian3.packedLength)%nat
      with (offset + length (slots ++ Wire.point3 p))%nat
      by (rewrite length_app; simpl; unfold Cartesian3.packedLength; lia).
    rewrite IH by lia.
    rewrite (drop_S _ _ _ Hp). simpl. by rewrite <- !app_assoc.
Qed.

Lemma pack_shape_loop (shape : list Cartesian2.t) (array : list value) (offset : nat) :
  forall (n from : nat) (slots : list value),
    (from + n <= length shape)%nat ->
    for_loop n from (fun i '(array, startingIndex) =>
        array ← Cartesian2.pack (at_index (Some <$> shape) i) array startingIndex;
        Returns (array, (startingIndex + Cartesian2.packedLength)%nat))
      (Wire.stored array offset slots, (offset + length slots)%nat)
    = Returns (Wire.stored array offset (slots ++ (take n (drop from shape) ≫= Wire.point2)),
               (offset + length (slots ++ (take n (drop from shape) ≫= Wire.point2)))%nat).
Proof.
  induction n as [|n IH]; intros from slots Hn.
  - simpl. by rewrite app_nil_r.
  - destruct (lookup_lt_is_Some_2 shape from ltac:(lia)) as [p Hp].
    cbn [for_loop]. rewrite (at_index_points _ _ _ Hp), Cartesian2_pack_stored.
    cbn [mbind outcome_bind JS.bind].
    replace (offset + length slots + Cartesian2.packedLength)%nat
      with (offset + length (slots ++ Wire.point2 p))%nat
      by (rewrite length_app; simpl; unfold Cartesian2.packedLength; lia).
    rewrite IH by lia.
    rewrite (drop_S _ _ _ Hp). simpl. by rewrite <- !app_assoc.
Qed.

(** [pack] stores the wire format of the instance from the offset on. *)
Lemma pack_spec (v : t) (h : gmap positive Ellipsoid.object) path shape radii
  (array : list value) (startingIndex : option nat) :
  validSpec v h path shape radii ->
  pack (Some v) (Some array) startingIndex h
  = Returns (Wire.stored array (defaultOpt startingIndex 0%nat)
               (Wire.format path shape radii (_cornerType v) (_granularity v))).
Proof.
  intros [Hpos Hshape Hell _ _ _ _]. unfold pack.
  set (offset := defaultOpt startingIndex 0%nat).
  rewrite Hpos, Hshape, !length_fmap.
  rewrite stored_single.
  replace (S offset) with (offset + length [number (of_nat (length path))])%nat
    by (simpl; lia).
  rewrite pack_positions_loop by lia.
  cbn [mbind outcome_bind JS.bind].
  rewrite drop_0, firstn_all.
  set (s1 := [number (of_nat (length path))] ++ _).
  rewrite stored_snoc.
  replace (S (offset + length s1))
    with (offset + length (s1 ++ [number (of_nat (length shape))]))%nat
    by (rewrite length_app; simpl; lia).
  rewrite pack_shape_loop by lia.
  cbn [mbind outcome_bind JS.bind].
  rewrite drop_0, firstn_all.
  set (s2 := (s1 ++ _) ++ _).
  unfold Ellipsoid.pack, Ellipsoid.read. rewrite Hell.
  cbn [mbind outcome_bind JS.bind Ellipsoid._radii].
  rewrite Cartesian3_pack_stored.
  cbn [mbind outcome_bind JS.bind].
  replace (offset + length s2 + Ellipsoid.packedLength)%nat
    with (offset + length (s2 ++ Wire.point3 radii))%nat
    by (rewrite length_app; simpl; unfold Ellipsoid.packedLength, Cartesian3.packedLength; lia).
  rewrite stored_snoc.
  replace (S (offset + length (s2 ++ Wire.point3 radii)))
    with (offset + length ((s2 ++ Wire.point3 radii) ++ [_cornerType v]))%nat
    by (rewrite !length_app; simpl; lia).
  rewrite stored_snoc.
  do 2 f_equal. unfold s2, s1, Wire.format. by rewrite <- !app_assoc.
Qed.

Lemma length_bind_point3 (path : list Cartesian3.t) :
  length (path ≫= Wire.point3) = (3 * length path)%nat.
Proof.
  induction path as [|p path IH]; [done|].
  change ((p :: path) ≫= Wire.point3) with (Wire.point3 p ++ (path ≫= Wire.point3)).
  rewrite length_app, IH. simpl. lia.
Qed.

Lemma length_bind_point2 (shape : list Cartesian2.t) :
  length (shape ≫= Wire.point2) = (2 * length shape)%nat.
Proof.
  induction shape as [|p shape IH]; [done|].
  change ((p :: shape) ≫= Wire.point2) with (Wire.point2 p ++ (shape ≫= Wire.point2)).
  rewrite length_app, IH. simpl. lia.
Qed.

Lemma length_format path shape radii cornerType granularity :
  length (Wire.format path shape radii cornerType granularity)
  = (4 + 3 * length path + 2 * length shape + Ellipsoid.packedLength)%nat.
Proof.
  unfold Wire.format.
  rewrite !length_app, length_bind_point3, length_bind_point2. simpl.
  unfold Ellipsoid.packedLength, Cartesian3.packedLength. lia.
Qed.

End Pack.

(** ** [unpack] reads the wire format back *)

Section Unpack.

Import PolylineVolumeOutlineGeometry.

Lemma Qred_inject_Z (z : Z) : Qred (inject_Z z) = inject_Z z.
Proof.
  unfold Qred, inject_Z. simpl.
  pose proof (Z.ggcd_gcd z 1) as Hg. pose proof (Z.ggcd_correct_divisors z 1) as Hd.
  destruct (Z.ggcd z 1) as [g [a b]]. simpl in *.
  rewrite Z.gcd_1_r in Hg. subst g. destruct Hd as [Ha Hb].
  assert (a = z) as -> by lia. assert (b = 1%Z) as -> by lia. done.
Qed.

Lemma new_Array_length {A} (n : nat) :
  (Z.of_nat n <= MAX_ARRAY_LENGTH)%Z ->
  @new_Array A (number (of_nat n)) = Returns (replicate n None).
Proof.
  intros Hn. unfold new_Array, is_array_length, of_nat. rewrite Qred_inject_Z. simpl.
  rewrite (proj2 (Z.leb_le _ _) Hn), (proj2 (Z.leb_le 0 _)) by lia.
  simpl. by rewrite Nat2Z.id.
Qed.

Lemma trips_of_nat (n : nat) : trips_value (number (of_nat n)) = n.
Proof. simpl. rewrite (trips_integer _ (Z.of_nat n)); [lia|done]. Qed.

Lemma unpack3_stored array offset (pre : list value) (p : Cartesian3.t) (post : list value) :
  Cartesian3.unpack (Wire.stored array offset (pre ++ Wire.point3 p ++ post))
    (offset + length pre)
  = p.
Proof.
  unfold Cartesian3.unpack. destruct p as [px py pz]. unfold Wire.point3. simpl.
  rewrite <- !Nat.add_assoc. f_equal; apply get_stored.
  - by apply list_lookup_middle.
  - rewrite lookup_app_r by lia. by replace (length pre + 1 - length pre)%nat with 1%nat by lia.
  - rewrite lookup_app_r by lia. by replace (length pre + 2 - length pre)%nat with 2%nat by lia.
Qed.

Lemma unpack2_stored array offset (pre : list value) (p : Cartesian2.t) (post : list value) :
  Cartesian2.unpack (Wire.stored array offset (pre ++ Wire.point2 p ++ post))
    (offset + length pre)
  = p.
Proof.
  unfold Cartesian2.unpack. destruct p as [px py]. unfold Wire.point2. simpl.
  rewrite <- !Nat.add_assoc. f_equal; apply get_stored.
  - by apply list_lookup_middle.
  - rewrite lookup_app_r by lia. by replace (length pre + 1 - length pre)%nat with 1%nat by lia.
Qed.

Lemma unpack3_in_run array offset (pre : list value) (path : list Cartesian3.t)
  (post : list value) (i : nat) (p : Cartesian3.t) :
  path !! i = Some p ->
  Cartesian3.unpack (Wire.stored array offset (pre ++ (path ≫= Wire.point3) ++ post))
    (offset + length pre + 3 * i)
  = p.
Proof.
  intros Hp. rewrite <- (take_drop_middle path i p Hp) at 1.
  rewrite bind_app, bind_cons.
  replace (pre ++ ((take i path ≫= Wire.point3)
                   ++ Wire.point3 p ++ (drop (S i) path ≫= Wire.point3)) ++ post)
    with ((pre ++ (take i path ≫= Wire.point3))
          ++ Wire.point3 p ++ ((drop (S i) path ≫= Wire.point3) ++ post))
    by (by rewrite <- !app_assoc).
  replace (offset + length pre + 3 * i)%nat
    with (offset + length (pre ++ (take i path ≫= Wire.point3)))%nat.
  - apply unpack3_stored.
  - rewrite length_app, length_bind_point3, length_take.
    apply lookup_lt_Some in Hp. lia.
Qed.

Lemma unpack2_in_run array offset (pre : list value) (shape : list Cartesian2.t)
  (post : list value) (i : nat) (p : Cartesian2.t) :
  shape !! i = Some p ->
  Cartesian2.unpack (Wire.stored array offset (pre ++ (shape ≫= Wire.point2) ++ post))
    (offset + length pre + 2 * i)
  = p.
Proof.
  intros Hp. rewrite <- (take_drop_middle shape i p Hp) at 1.
  rewrite bind_app, bind_cons.
  replace (pre ++ ((take i shape ≫= Wire.point2)
                   ++ Wire.point2 p ++ (drop (S i) shape ≫= Wire.point2)) ++ post)
    with ((pre ++ (take i shape ≫= Wire.point2))
          ++ Wire.point2 p ++ ((drop (S i) shape ≫= Wire.point2) ++ post))
    by (by rewrite <- !app_assoc).
  replace (offset + length pre + 2 * i)%nat
    with (offset + length (pre ++ (take i shape ≫= Wire.point2)))%nat.
  - apply unpack2_stored.
  - rewrite length_app, length_bind_point2, length_take.
    apply lookup_lt_Some in Hp. lia.
Qed.

(** A loop that fills a new array front to back with what [read] finds at
    [base + width * i]. *)
Lemma fill_loop {A} (read : nat -> A) (points : list A) (base width : nat) :
  (forall i p, points !! i = Some p -> read (base + width * i)%nat = p) ->
  forall (n from : nat),
    (from + n <= length points)%nat ->
    for_loop n from (fun i '(positions, startingIndex) =>
        Returns (set_with None positions i (Some (read startingIndex)),
                 (startingIndex + width)%nat))
      ((Some <$> take from points) ++ replicate (length points - from) None,
       (base + width * from)%nat)
    = Returns ((Some <$> take (from + n) points)
               ++ replicate (length points - (from + n)) None,
               (base + width * (from + n))%nat).
Proof.
  intros Hread. induction n as [|n IH]; intros from Hn.
  - simpl. by rewrite Nat.add_0_r.
  - destruct (lookup_lt_is_Some_2 points from ltac:(lia)) as [p Hp].
    cbn [for_loop JS.bind]. rewrite (Hread _ _ Hp).
    assert (set_with None ((Some <$> take from points)
                           ++ replicate (length points - from) None) from (Some p)
            = (Some <$> take (S from) points) ++ replicate (length points - S from) None)
      as ->.
    { unfold set_with.
      assert (length (Some <$> take from points) = from) as Hlen
        by (rewrite length_fmap, length_take; lia).
      rewrite decide_True by (rewrite length_app, length_replicate; lia).
      rewrite insert_app_r_alt by lia. rewrite Hlen, Nat.sub_diag.
      replace (length points - from)%nat with (S (length points - S from)) by lia.
      simpl. rewrite (take_S_r _ _ _ Hp), fmap_app, <- app_assoc. done. }
    replace (base + width * from + width)%nat with (base + width * S from)%nat by lia.
    rewrite IH by lia. by replace (S from + n)%nat with (from + S n)%nat by lia.
Qed.

Lemma fill_loop_all {A} (read : nat -> A) (points : list A) (base width : nat) :
  (forall i p, points !! i = Some p -> read (base + width * i)%nat = p) ->
  for_loop (length points) 0 (fun i '(positions, startingIndex) =>
      Returns (set_with None positions i (Some (read startingIndex)),
               (startingIndex + width)%nat))
    (replicate (length points) None, base)
  = Returns (Some <$> points, (base + width * length points)%nat).
Proof.
  intros Hread.
  pose proof (fill_loop read points base width Hread (length points) 0 ltac:(lia)) as H.
  rewrite take_0, Nat.sub_0_r, Nat.mul_0_r, Nat.add_0_r in H. simpl in H.
  rewrite H. rewrite firstn_all, Nat.sub_diag. simpl. by rewrite app_nil_r.
Qed.

(** [unpack] on the array [pack] leaves: everything up to the choice on
    [result] is determined by the wire format. *)
Lemma unpack_stored (array : list value) (startingIndex : option nat)
  (path : list Cartesian3.t) (shape : list Cartesian2.t) (radii : Cartesian3.t)
  (cT gr : value) (result : option t) (s : state) :
  (Z.of_nat (length path) <= MAX_ARRAY_LENGTH)%Z ->
  (Z.of_nat (length shape) <= MAX_ARRAY_LENGTH)%Z ->
  unpack (Some (Wire.stored array (defaultOpt startingIndex 0%nat)
                  (Wire.format path shape radii cT gr)))
    startingIndex result s
  = let h := <[scratchEllipsoid := {| Ellipsoid._radii := radii |}]> (ellipsoids s) in
    match result with
    | None =>
        let scratchOptions :=
          {| polylinePositions := Some (Some <$> path);
             shapePositions := Some (Some <$> shape);
             ellipsoid := ellipsoid (scratchOptions s);
             height := height (scratchOptions s);
             cornerType := cT;
             granularity := gr |} in
        '(g, h) ← new (Some scratchOptions) h;
        Returns (g, {| ellipsoids := h; scratchOptions := scratchOptions |})
    | Some result =>
        '(e, h) ← Ellipsoid.clone scratchEllipsoid (Some (_ellipsoid result)) h;
        Returns
          ({| _positions := Some <$> path;
              _shape := Some <$> shape;
              _ellipsoid := e;
              _cornerType := cT;
              _granularity := gr;
              packedLength := packedLength result |},
           {| ellipsoids := h; scratchOptions := scratchOptions s |})
    end.
Proof.
  intros HN HM. unfold unpack.
  set (offset := defaultOpt startingIndex 0%nat).
  set (packed := Wire.stored array offset _).
  assert (JS.get packed offset = number (of_nat (length path))) as ->.
  { pose proof (get_stored array offset (Wire.format path shape radii cT gr) 0 _ eq_refl) as H.
    by rewrite Nat.add_0_r in H. }
  rewrite new_Array_length by done. cbn [mbind outcome_bind JS.bind].
  rewrite trips_of_nat.
  rewrite (fill_loop_all (Cartesian3.unpack packed) path (S offset) Cartesian3.packedLength);
    cycle 1.
  { intros i p Hp. unfold packed, Wire.format.
    replace (S offset + Cartesian3.packedLength * i)%nat
      with (offset + length [number (of_nat (length path))] + 3 * i)%nat
      by (simpl; unfold Cartesian3.packedLength; lia).
    by apply unpack3_in_run. }
  cbn [mbind outcome_bind JS.bind].
  set (s1 := [number (of_nat (length path))] ++ (path ≫= Wire.point3)).
  assert (length s1 = 1 + 3 * length path)%nat as Hs1
    by (unfold s1; rewrite length_app, length_bind_point3; done).
  set (s2 := s1 ++ [number (of_nat (length shape))]).
  assert (length s2 = 2 + 3 * length path)%nat as Hs2
    by (unfold s2; rewrite length_app, Hs1; simpl; lia).
  set (s3 := s2 ++ (shape ≫= Wire.point2)).
  assert (length s3 = 2 + 3 * length path + 2 * length shape)%nat as Hs3
    by (unfold s3; rewrite length_app, Hs2, length_bind_point2; lia).
  assert (Wire.format path shape radii cT gr = s3 ++ Wire.point3 radii ++ [cT; gr]) as Hfmt.
  { unfold s3, s2, s1, Wire.format. by rewrite <- !app_assoc. }
  assert (JS.get packed (S offset + Cartesian3.packedLength * length path)
          = number (of_nat (length shape))) as ->.
  { replace (S offset + Cartesian3.packedLength * length path)%nat
      with (offset + length s1)%nat by (rewrite Hs1; unfold Cartesian3.packedLength; lia).
    apply get_stored. rewrite Hfmt. unfold s3, s2. rewrite <- !app_assoc.
    by apply list_lookup_middle. }
  rewrite new_Array_length by done. cbn [mbind outcome_bind JS.bind].
  rewrite trips_of_nat.
  rewrite (fill_loop_all (Cartesian2.unpack packed) shape
             (S (S offset + Cartesian3.packedLength * length path)) Cartesian2.packedLength);
    cycle 1.
  { intros i p Hp. unfold packed. rewrite Hfmt. unfold s3. rewrite <- !app_assoc.
    replace (S (S offset + Cartesian3.packedLength * length path)
             + Cartesian2.packedLength * i)%nat
      with (offset + length s2 + 2 * i)%nat
      by (rewrite Hs2; unfold Cartesian3.packedLength, Cartesian2.packedLength; lia).
    by apply unpack2_in_run. }
  cbn [mbind outcome_bind JS.bind].
  set (k := (S (S offset + Cartesian3.packedLength * length path)
             + Cartesian2.packedLength * length shape)%nat).
  assert (k = offset + length s3)%nat as Hk
    by (unfold k; rewrite Hs3; unfold Cartesian3.packedLength, Cartesian2.packedLength; lia).
  unfold Ellipsoid.unpack.
  assert (Cartesian3.unpack packed k = radii) as ->.
  { rewrite Hk. unfold packed. rewrite Hfmt. apply unpack3_stored. }
  assert (JS.get packed (k + Ellipsoid.packedLength) = cT) as ->.
  { replace (k + Ellipsoid.packedLength)%nat with (offset + (length s3 + 3))%nat
      by (rewrite Hk; unfold Ellipsoid.packedLength, Cartesian3.packedLength; lia).
    apply get_stored. rewrite Hfmt, lookup_app_r by lia.
    by replace (length s3 + 3 - length s3)%nat with 3%nat by lia. }
  assert (JS.get packed (S (k + Ellipsoid.packedLength)) = gr) as ->.
  { replace (S (k + Ellipsoid.packedLength))%nat with (offset + (length s3 + 4))%nat
      by (rewrite Hk; unfold Ellipsoid.packedLength, Cartesian3.packedLength; lia).
    apply get_stored. rewrite Hfmt, lookup_app_r by lia.
    by replace (length s3 + 4 - length s3)%nat with 4%nat by lia. }
  done.
Qed.

End Unpack.

(** ** The shoelace area under reversal *)

Section Shoelace.

Import PolygonPipeline.
Local Open Scope Q_scope.

Lemma last_cons_default {A} (l : list A) (a d : A) :
  List.last (a :: l) d = List.last l a.
Proof.
  revert a d. induction l as [|b l IH]; intros a d; [done|].
  change (List.last (a :: b :: l) d) with (List.last (b :: l) d).
  by rewrite !IH.
Qed.

Lemma last_reverse_cons {A} (l : list A) (a d : A) :
  List.last (reverse (a :: l)) d = a.
Proof. rewrite reverse_cons. apply List.last_last. Qed.

Lemma cross_antisym (a b : Q * Q) : cross a b == - cross b a.
Proof. unfold cross. ring. Qed.

Lemma chain_snoc (v0 : Q * Q) (rest : list (Q * Q)) (w : Q * Q) :
  chain v0 (rest ++ [w]) == chain v0 rest + cross (List.last rest v0) w.
Proof.
  revert v0. induction rest as [|v1 rest IH]; intros v0.
  - simpl. ring.
  - change (chain v0 ((v1 :: rest) ++ [w])) with (cross v0 v1 + chain v1 (rest ++ [w])).
    rewrite IH. simpl chain. rewrite (last_cons_default rest v1 v0). ring.
Qed.

(** The chain through the points of [v0 :: rest], walked backwards. *)
Lemma chain_reverse (v0 : Q * Q) (rest : list (Q * Q)) :
  match reverse (v0 :: rest) with
  | [] => 0
  | w :: back => chain w back
  end == - chain v0 rest.
Proof.
  revert v0. induction rest as [|v1 rest IH]; intros v0.
  - simpl. ring.
  - specialize (IH v1). rewrite (reverse_cons (v1 :: rest)).
    destruct (reverse (v1 :: rest)) as [|w back] eqn:E.
    + apply (f_equal length) in E. rewrite length_reverse in E. done.
    + simpl app. rewrite chain_snoc, IH.
      assert (List.last back w = v1) as ->.
      { rewrite <- (last_cons_default back w v0), <- E. apply last_reverse_cons. }
      simpl chain. rewrite (cross_antisym v1 v0). ring.
Qed.

Lemma signedArea_reverse (points : list (Q * Q)) :
  signedArea (reverse points) == - signedArea points.
Proof.
  destruct points as [|v0 rest]; [reflexivity|].
  pose proof (chain_reverse v0 rest) as Hc. unfold signedArea.
  destruct (reverse (v0 :: rest)) as [|w back] eqn:E.
  - apply (f_equal length) in E. rewrite length_reverse in E. done.
  - rewrite Hc.
    assert (List.last back w = v0) as ->.
    { rewrite <- (last_cons_default back w v0), <- E. apply last_reverse_cons. }
    assert (w = List.last rest v0) as ->.
    { apply (f_equal reverse) in E. rewrite reverse_involutive in E.
      rewrite reverse_cons in E. rewrite <- (last_cons_default rest v0 v0), E.
      by rewrite List.last_last. }
    rewrite (cross_antisym v0). ring.
Qed.

Lemma all_coordinates_snoc (shape : list (option Cartesian2.t)) (p : option Cartesian2.t)
  (points : list (Q * Q)) (c : Q * Q) :
  all_coordinates shape = Returns points -> coordinates p = Returns c ->
  all_coordinates (shape ++ [p]) = Returns (points ++ [c]).
Proof.
  revert points. induction shape as [|q shape IH]; intros points Hs Hp.
  - simpl in Hs. injection Hs as <-. simpl. by rewrite Hp.
  - simpl in Hs. destruct (coordinates q) as [cq| |] eqn:Eq; try done.
    simpl in Hs. destruct (all_coordinates shape) as [cs| |] eqn:Es; try done.
    simpl in Hs. injection Hs as <-.
    simpl. rewrite Eq. simpl. by rewrite (IH cs eq_refl Hp).
Qed.

Lemma all_coordinates_reverse (shape : list (option Cartesian2.t)) (points : list (Q * Q)) :
  all_coordinates shape = Returns points ->
  all_coordinates (reverse shape) = Returns (reverse points).
Proof.
  revert points. induction shape as [|q shape IH]; intros points Hs.
  - simpl in Hs. by injection Hs as <-.
  - simpl in Hs. destruct (coordinates q) as [cq| |] eqn:Eq; try done.
    simpl in Hs. destruct (all_coordinates shape) as [cs| |] eqn:Es; try done.
    simpl in Hs. injection Hs as <-.
    rewrite !reverse_cons. by apply all_coordinates_snoc; [apply IH|].
Qed.

(** Reversing a shape negates its signed area. *)
Lemma computeArea2D_reverse (shape : list (option Cartesian2.t)) (area : Q) :
  computeArea2D shape = Returns area ->
  exists area', computeArea2D (reverse shape) = Returns area' /\ area' == - area.
Proof.
  unfold computeArea2D. intros H.
  destruct (all_coordinates shape) as [points| |] eqn:E; try done.
  simpl in H. injection H as <-.
  rewrite (all_coordinates_reverse _ _ E). simpl.
  eexists. split; [reflexivity|]. apply signedArea_reverse.
Qed.

End Shoelace.

(** ** Arrays that hold the wire format *)

Section PackedRegions.

Import PolylineVolumeOutlineGeometry.

Lemma holdsAt_bound (array : list value) (offset : nat) (slots : list value) :
  holdsAt array offset slots -> slots <> [] -> (offset + length slots <= length array)%nat.
Proof.
  intros H Hne. apply (f_equal length) in H.
  rewrite length_take, length_drop in H.
  destruct slots; [done|]. cbn [length] in *. lia.
Qed.

(** Storing what the array already holds changes nothing. *)
Lemma stored_self (array : list value) (offset : nat) (slots : list value) :
  holdsAt array offset slots -> slots <> [] -> Wire.stored array offset slots = array.
Proof.
  intros H Hne. pose proof (holdsAt_bound _ _ _ H Hne) as Hb.
  unfold Wire.stored. replace (offset - length array)%nat with 0%nat by lia.
  simpl. rewrite app_nil_r. rewrite <- H at 1.
  rewrite <- drop_drop, take_drop. apply take_drop.
Qed.

Lemma holdsAt_stored (array : list value) (offset : nat) (slots : list value) :
  holdsAt (Wire.stored array offset slots) offset slots.
Proof.
  unfold holdsAt, Wire.stored.
  assert (length (take offset (array ++ replicate (offset - length array) undefined)) = offset)
    as Hpre by (rewrite length_take, length_app, length_replicate; lia).
  rewrite drop_app_length'; [|done]. by rewrite take_app_length.
Qed.

Lemma holdsAt_app_l (array : list value) (offset : nat) (s1 s2 : list value) :
  holdsAt array offset (s1 ++ s2) -> holdsAt array offset s1.
Proof.
  unfold holdsAt. intros H. apply (f_equal (take (length s1))) in H.
  rewrite take_take, length_app, Nat.min_l in H by lia.
  by rewrite take_app_length in H.
Qed.

Lemma holdsAt_app_r (array : list value) (offset : nat) (s1 s2 : list value) :
  holdsAt array offset (s1 ++ s2) -> holdsAt array (offset + length s1) s2.
Proof.
  unfold holdsAt. intros H. rewrite length_app in H.
  rewrite <- drop_drop, take_drop_commute, H. apply drop_app_length.
Qed.

Lemma holdsAt_lookup (array : list value) (offset : nat) (slots : list value) :
  holdsAt array offset slots <->
  (forall i v, slots !! i = Some v -> array !! (offset + i)%nat = Some v).
Proof.
  unfold holdsAt. split.
  - intros H i v Hi. rewrite <- H in Hi.
    apply lookup_take_Some in Hi as [Hi _]. by rewrite lookup_drop in Hi.
  - intros H. apply list_eq. intros i.
    destruct (slots !! i) as [v|] eqn:Hi.
    + rewrite lookup_take_lt by (by apply lookup_lt_Some in Hi).
      rewrite lookup_drop. by apply H.
    + apply lookup_ge_None in Hi. by rewrite lookup_take_ge.
Qed.

Lemma lookup_stored_before (array : list value) (offset : nat) (slots : list value)
  (i : nat) :
  (i < offset)%nat -> (i < length array)%nat ->
  Wire.stored array offset slots !! i = array !! i.
Proof.
  intros Hi Hl. unfold Wire.stored.
  rewrite lookup_app_l by (rewrite length_take, length_app, length_replicate; lia).
  rewrite lookup_take_lt by done. by rewrite lookup_app_l.
Qed.

(** A store past a packed region leaves the region as it is. *)
Lemma holdsAt_stored_after (array : list value) (offset next : nat) (s1 s2 : list value) :
  holdsAt array offset s1 -> (offset + length s1 <= next)%nat ->
  holdsAt (Wire.stored array next s2) offset s1.
Proof.
  rewrite !holdsAt_lookup. intros H Hnext i v Hi.
  pose proof (lookup_lt_Some _ _ _ Hi) as Hlt.
  pose proof (lookup_lt_Some _ _ _ (H i v Hi)) as Hlt'.
  rewrite lookup_stored_before by lia. by apply H.
Qed.

Lemma format_nonempty path shape radii cT gr : Wire.format path shape radii cT gr <> [].
Proof. done. Qed.

(** [unpack] on any array that holds a wire format at the starting index. *)
Lemma unpack_holds (array : list value) (startingIndex : option nat)
  (path : list Cartesian3.t) (shape : list Cartesian2.t) (radii : Cartesian3.t)
  (cT gr : value) (result : option t) (s : state) :
  holdsAt array (defaultOpt startingIndex 0%nat) (Wire.format path shape radii cT gr) ->
  unpack (Some array) startingIndex result s
  = unpack (Some (Wire.stored array (defaultOpt startingIndex 0%nat)
                    (Wire.format path shape radii cT gr)))
      startingIndex result s.
Proof. intros H. by rewrite (stored_self _ _ _ H (format_nonempty _ _ _ _ _)). Qed.

End PackedRegions.

(** ** The model on concrete inputs *)

Section Examples.

Import PolylineVolumeOutlineGeometry.

(** A triangle swept over two cross-sections: 18 indices, 16 bits wide. *)
Example computeIndices_two_triangles :
  computeIndices twoTriangles triangleShape
  = Returns ({| bits := 16;
                elements := [0; 1; 1; 2; 2; 0; 3; 4; 4; 5; 5; 3; 0; 3; 1; 4; 2; 5]%Z |},
             18%nat).
Proof. by vm_compute. Qed.

(** A buffer that holds a single cross-section: both rings are written
    over it, and no connector. *)
Example computeIndices_one_triangle :
  computeIndices (replicate 9 0%Q) triangleShape
  = Returns ({| bits := 16; elements := [0; 1; 1; 2; 2; 0; 0; 1; 1; 2; 2; 0]%Z |}, 12%nat).
Proof. by vm_compute. Qed.

(** A buffer whose length is no multiple of the shape: the buffer is cut to
    a whole number of slots, offsets are truncated, and the last writes
    fall past the end and are dropped. *)
Example computeIndices_ragged :
  computeIndices (replicate 10 0%Q) triangleShape
  = Returns ({| bits := 16; elements := [0; 1; 1; 2; 2; 0; 0; 1; 1; 2; 2; 0]%Z |}, 18%nat).
Proof. by vm_compute. Qed.

Example computeIndices_empty_shape : computeIndices twoTriangles [] = NonFinite.
Proof. reflexivity. Qed.

(** The packed form of the hexagon instance. *)
Example pack_hexagon :
  pack (Some hexagonSpec) (Some []) None exampleStore
  = Returns
      (number <$>
         [2; 1; 2; 3; 4; 5; 6;
          6; 2; 0; 1; 2; -1; 2; -2; 0; -1; -2; 1; -2;
          6378137; 6378137; 63567523142451793 # 10000000000;
          0; 17453292519943295 # 1000000000000000000]%Q).
Proof. by vm_compute. Qed.

(** Writing past the end of an array leaves holes. *)
Example set_past_the_end :
  JS.set [number 1] 3 (number 2) = [number 1; undefined; undefined; number 2].
Proof. reflexivity. Qed.

(** [unpack] on an array that is too short: the path count is [undefined],
    so the path array is the one-element array [new Array(undefined)]. *)
Example unpack_empty_array :
  ('(v, _) ← unpack (Some []) None None initial; Returns (_positions v, _shape v))
  = Returns ([None], [None]).
Proof. by vm_compute. Qed.

(** A path count that is no array length. *)
Example unpack_bad_count :
  unpack (Some [number (-1)]) None None initial = Throws RangeError.
Proof. by vm_compute. Qed.

Example winding_triangle :
  PolygonPipeline.computeWindingOrder2D triangleShape = Returns WindingOrder.CLOCKWISE.
Proof. by vm_compute. Qed.

Example winding_hexagon :
  PolygonPipeline.computeWindingOrder2D (Some <$> hexagon)
  = Returns WindingOrder.COUNTER_CLOCKWISE.
Proof. by vm_compute. Qed.

End Examples.

(** ** Claims about the topology builder *)

Section TopologyClaims.

Context {BoundingSphere : Type}.
Variable BoundingSphere_fromVertices : list Q -> BoundingSphere.

Lemma indexBuffer_range (L C : nat) :
  (1 <= L)%nat -> (1 <= C)%nat ->
  Forall (fun n => (n < L * C)%nat) (Outline.indexBuffer L C).
Proof.
  intros HL HC.
  unfold Outline.indexBuffer, Outline.flatten, Outline.segments,
    Outline.endRing, Outline.connectors, Outline.startRing.
  apply Forall_bind. rewrite !Forall_app. repeat split.
  - apply Forall_fmap, Forall_seq. intros j Hj. simpl. repeat constructor; nia.
  - repeat constructor; simpl; nia.
  - rewrite fmap_app, Forall_app. split.
    + apply Forall_fmap, Forall_fmap, Forall_seq. intros j Hj. simpl.
      repeat constructor; nia.
    + repeat constructor; simpl; nia.
  - apply Forall_bind, Forall_seq. intros i Hi.
    apply Forall_fmap, Forall_seq. intros j Hj. simpl. repeat constructor; nia.
Qed.

Lemma wrap_small (w : Z) (n : nat) : (Z.of_nat n < 2 ^ w)%Z -> wrap w n = Z.of_nat n.
Proof. intros H. unfold wrap. apply Z.mod_small. lia. Qed.

Lemma wrap_bounds (w : Z) (n : nat) : (0 <= w)%Z -> (0 <= wrap w n <= Z.of_nat n)%Z.
Proof.
  intros Hw. unfold wrap.
  assert (0 < 2 ^ w)%Z by (apply Z.pow_pos_nonneg; lia).
  split; [apply Z.mod_pos_bound; lia|apply Z.mod_le; lia].
Qed.

Lemma wrap_idempotent (w : Z) (n : nat) : (wrap w n mod 2 ^ w)%Z = wrap w n.
Proof. unfold wrap. apply Zmod_mod. Qed.

(** The geometry [computeAttributes] returns on a well-formed buffer. *)
Lemma computeAttributes_spec (positions : list Q) (shape : list (option Cartesian2.t))
  (L C : nat) :
  length shape = L -> length positions = (L * C * 3)%nat ->
  (1 <= L)%nat -> (1 <= C)%nat ->
  exists g,
    computeAttributes BoundingSphere_fromVertices positions shape = Returns g /\
    elements (indices g) = wrap (indexWidth (L * C)) <$> Outline.indexBuffer L C.
Proof.
  intros HL HP H1 HC. unfold computeAttributes.
  rewrite (computeIndices_spec _ _ L C) by done.
  cbn [mbind outcome_bind JS.bind]. eexists. split; [reflexivity|].
  simpl. rewrite <- list_fmap_compose.
  apply list_fmap_ext. intros _ n _. simpl.
  assert (IndexDatatype.width (of_nat (length positions) / 3) = indexWidth (L * C)) as ->.
  { apply width_integer. rewrite HP, (of_nat_mult (L * C) 3).
    change (of_nat 3) with 3%Q. field. }
  apply wrap_idempotent.
Qed.

(** C1: on a vertex buffer of [vertexCount * 3] numbers, with [vertexCount]
    the product of [shapeCount >= 2] and [shapeLength >= 3], the index
    buffer that [computeAttributes] returns is, in this order, the start
    ring, the end ring and the longitudinal connectors, and nothing else.
    (The buffer is a JavaScript array: its length is an array length.) *)
Theorem computeAttributes_three_groups
  (positions : list Q) (shape : list (option Cartesian2.t))
  (shapeLength shapeCount vertexCount : nat) :
  length shape = shapeLength ->
  length positions = (vertexCount * 3)%nat ->
  vertexCount = (shapeCount * shapeLength)%nat ->
  (3 <= shapeLength)%nat -> (2 <= shapeCount)%nat ->
  (Z.of_nat (length positions) <= MAX_ARRAY_LENGTH)%Z ->
  exists g,
    computeAttributes BoundingSphere_fromVertices positions shape = Returns g /\
    elements (indices g)
    = Z.of_nat <$> Outline.flatten
        (Outline.startRing shapeLength
         ++ Outline.endRing shapeLength shapeCount
         ++ Outline.connectors shapeLength shapeCount).
Proof.
  intros HL HP HV H3 H2 Hmax.
  destruct (computeAttributes_spec positions shape shapeLength shapeCount)
    as (g & Hg & Hel); [done|lia|lia|lia|].
  exists g. split; [done|]. rewrite Hel.
  apply Forall_fmap_ext_1.
  eapply Forall_impl; [apply (indexBuffer_range shapeLength shapeCount); lia|].
  intros n Hn. simpl in Hn. apply wrap_small.
  unfold indexWidth. unfold MAX_ARRAY_LENGTH in Hmax.
  destruct (65536 <=? Z.of_nat (shapeLength * shapeCount))%Z eqn:E.
  - assert (2 ^ 32 = 4294967296)%Z as -> by reflexivity. lia.
  - apply Z.leb_gt in E. assert (2 ^ 16 = 65536)%Z as -> by reflexivity. lia.
Qed.

(** C3: for a shape of length [L >= 3] and a vertex buffer holding
    [C >= 2] cross-sections, the index buffer has exactly [2*L*(C+1)]
    entries, and the write index after the three groups equals the
    allocated length. *)
Theorem computeAttributes_index_count
  (positions : list Q) (shape : list (option Cartesian2.t)) (L C : nat) :
  length shape = L ->
  length positions = (L * C * 3)%nat ->
  (3 <= L)%nat -> (2 <= C)%nat ->
  exists allocated index g,
    computeIndices positions shape = Returns (allocated, index) /\
    length (elements allocated) = (2 * L * (C + 1))%nat /\
    index = length (elements allocated) /\
    computeAttributes BoundingSphere_fromVertices positions shape = Returns g /\
    length (elements (indices g)) = (2 * L * (C + 1))%nat.
Proof.
  intros HL HP H3 H2.
  destruct (computeAttributes_spec positions shape L C) as (g & Hg & Hel);
    [done|done|lia|lia|].
  eexists _, _, g. split; [apply (computeIndices_spec _ _ L C); done || lia|].
  simpl. rewrite Hel, !length_fmap, length_indexBuffer by lia. done.
Qed.

(** C7: every entry of the index buffer produced from [vertexCount]
    vertices is a non-negative integer below [vertexCount]. *)
Theorem computeAttributes_index_range
  (positions : list Q) (shape : list (option Cartesian2.t))
  (shapeLength shapeCount vertexCount : nat) :
  length shape = shapeLength ->
  length positions = (vertexCount * 3)%nat ->
  vertexCount = (shapeCount * shapeLength)%nat ->
  (3 <= shapeLength)%nat -> (2 <= shapeCount)%nat ->
  exists g,
    computeAttributes BoundingSphere_fromVertices positions shape = Returns g /\
    Forall (fun entry => (0 <= entry < Z.of_nat vertexCount)%Z) (elements (indices g)).
Proof.
  intros HL HP HV H3 H2.
  destruct (computeAttributes_spec positions shape shapeLength shapeCount)
    as (g & Hg & Hel); [done|lia|lia|lia|].
  exists g. split; [done|]. rewrite Hel. apply Forall_fmap.
  eapply Forall_impl; [apply (indexBuffer_range shapeLength shapeCount); lia|].
  intros n Hn. simpl in *.
  pose proof (wrap_bounds (indexWidth (shapeLength * shapeCount)) n) as Hw.
  unfold indexWidth in Hw at 1.
  destruct (65536 <=? _)%Z; lia.
Qed.

End TopologyClaims.

(** The three claims at the smallest buffer they cover: a triangle swept
    over two cross-sections. *)

Lemma computeAttributes_three_groups_witness :
  exists g,
    computeAttributes (fun _ => tt) twoTriangles triangleShape = Returns g /\
    elements (indices g)
    = [0; 1; 1; 2; 2; 0; 3; 4; 4; 5; 5; 3; 0; 3; 1; 4; 2; 5]%Z.
Proof.
  apply (computeAttributes_three_groups (fun _ => tt) twoTriangles triangleShape 3 2 6);
    [reflexivity | reflexivity | reflexivity | lia | lia | by vm_compute].
Defined.

Lemma computeAttributes_index_count_witness :
  exists allocated index g,
    computeIndices twoTriangles triangleShape = Returns (allocated, index) /\
    length (elements allocated) = 18%nat /\
    index = length (elements allocated) /\
    computeAttributes (fun _ => tt) twoTriangles triangleShape = Returns g /\
    length (elements (indices g)) = 18%nat.
Proof.
  apply (computeAttributes_index_count (fun _ => tt) twoTriangles triangleShape 3 2);
    [reflexivity | reflexivity | lia | lia].
Defined.

Lemma computeAttributes_index_range_witness :
  exists g,
    computeAttributes (fun _ => tt) twoTriangles triangleShape = Returns g /\
    Forall (fun entry => (0 <= entry < 6)%Z) (elements (indices g)).
Proof.
  apply (computeAttributes_index_range (fun _ => tt) twoTriangles triangleShape 3 2 6);
    [reflexivity | reflexivity | reflexivity | lia | lia].
Defined.

(** ** Claims about the constructor and the serializer *)

Section SerializerClaims.

Import PolylineVolumeOutlineGeometry.

(** The constructor, when the two required options are there and the
    ellipsoid to clone is an object of the store. *)
Lemma new_spec (options : Options) (h : gmap positive Ellipsoid.object)
  positions shape (o : Ellipsoid.object) :
  polylinePositions options = Some positions ->
  shapePositions options = Some shape ->
  h !! defaultOpt (ellipsoid options) Ellipsoid.WGS84 = Some o ->
  new (Some options) h
  = Returns
      ({| _positions := positions;
          _shape := shape;
          _ellipsoid := fresh (dom h);
          _cornerType := defaultValue (cornerType options) CornerType.ROUNDED;
          _granularity := defaultValue (granularity options) CesiumMath.RADIANS_PER_DEGREE;
          packedLength :=
            (1 + length positions * Cartesian3.packedLength
             + (1 + length shape * Cartesian2.packedLength)
             + Ellipsoid.packedLength + 2)%nat |},
       <[fresh (dom h) := {| Ellipsoid._radii := Ellipsoid._radii o |}]> h).
Proof.
  intros Hp Hs Ho. unfold new. cbn [defaultOpt]. rewrite Hp, Hs.
  unfold Ellipsoid.clone, Ellipsoid.read. rewrite Ho. done.
Qed.

(** C8: the [packedLength] of an instance constructed from a path of
    [pathLen] points and a shape of [shapeLen] points is
    [1 + pathLen*3 + 1 + shapeLen*2 + Ellipsoid.packedLength + 2]; the
    constructor computes it and stores it in the instance. *)
Theorem new_packedLength (options : Options) (h : gmap positive Ellipsoid.object)
  (path : list (option Cartesian3.t)) (shape : list (option Cartesian2.t)) :
  polylinePositions options = Some path ->
  shapePositions options = Some shape ->
  is_Some (h !! defaultOpt (ellipsoid options) Ellipsoid.WGS84) ->
  exists v h',
    new (Some options) h = Returns (v, h') /\
    _positions v = path /\ _shape v = shape /\
    packedLength v
    = (1 + length path * 3 + 1 + length shape * 2 + Ellipsoid.packedLength + 2)%nat.
Proof.
  intros Hp Hs [o Ho]. eexists _, _. split; [by apply (new_spec options h path shape o)|].
  cbn [_positions _shape packedLength].
  unfold Cartesian3.packedLength, Cartesian2.packedLength. repeat split. lia.
Qed.

Lemma new_packedLength_witness :
  exists v h',
    new (Some hexagonOptions) (ellipsoids initial) = Returns (v, h') /\
    _positions v = Some <$> shortPath /\ _shape v = Some <$> hexagon /\
    packedLength v = 25%nat.
Proof.
  apply (new_packedLength hexagonOptions (ellipsoids initial));
    [reflexivity | reflexivity | eexists; vm_compute; reflexivity].
Defined.

Lemma get_stored_before (array : list value) (offset : nat) (slots : list value) (i : nat) :
  (i < offset)%nat -> JS.get (Wire.stored array offset slots) i = JS.get array i.
Proof.
  intros Hi. unfold JS.get, Wire.stored.
  rewrite lookup_app_l by (rewrite length_take, length_app, length_replicate; lia).
  rewrite lookup_take_lt by done.
  destruct (decide (i < length array)%nat) as [Hlt|Hge].
  - by rewrite lookup_app_l.
  - rewrite lookup_app_r by lia. rewrite (lookup_ge_None_2 array) by lia.
    by rewrite lookup_replicate_2 by lia.
Qed.

Lemma get_stored_after (array : list value) (offset : nat) (slots : list value) (i : nat) :
  (offset + length slots <= i)%nat ->
  JS.get (Wire.stored array offset slots) i = JS.get array i.
Proof.
  intros Hi. unfold JS.get, Wire.stored.
  assert (length (take offset (array ++ replicate (offset - length array) undefined)) = offset)
    as Hpre by (rewrite length_take, length_app, length_replicate; lia).
  rewrite lookup_app_r by (rewrite Hpre; lia). rewrite Hpre.
  rewrite lookup_app_r by lia. rewrite lookup_drop.
  by replace (offset + length slots + (i - offset - length slots))%nat with i by lia.
Qed.

(** C4, as the code has it: for an instance with [N] path points and [M]
    shape points, [pack] writes exactly [4 + 3N + 2M + K] consecutive slots
    from the offset on ([K] being [Ellipsoid.packedLength]) and leaves the
    other slots as they were; the slots are the path count, the [3N] path
    coordinates, the shape count, the [2M] shape coordinates, the [K]
    reference-surface slots, the corner-style code and the granularity. *)
Theorem pack_layout (v : t) (h : gmap positive Ellipsoid.object)
  (path : list Cartesian3.t) (shape : list Cartesian2.t) (radii : Cartesian3.t)
  (array : list value) (offset : nat) :
  validSpec v h path shape radii ->
  exists packed,
    let slots :=
      [number (of_nat (length path))] ++ (path ≫= Wire.point3)
      ++ [number (of_nat (length shape))] ++ (shape ≫= Wire.point2)
      ++ Wire.point3 radii ++ [_cornerType v; _granularity v] in
    pack (Some v) (Some array) (Some offset) h = Returns packed /\
    length slots = (4 + 3 * length path + 2 * length shape + Ellipsoid.packedLength)%nat /\
    (forall i s, slots !! i = Some s -> JS.get packed (offset + i) = s) /\
    (forall i, (i < offset)%nat -> JS.get packed i = JS.get array i) /\
    (forall i, (offset + length slots <= i)%nat -> JS.get packed i = JS.get array i) /\
    length packed = Nat.max (length array) (offset + length slots).
Proof.
  intros Hv. eexists. cbv zeta.
  split; [by apply (pack_spec v h path shape radii array (Some offset))|].
  cbn [defaultOpt]. fold (Wire.format path shape radii (_cornerType v) (_granularity v)).
  split; [apply length_format|]. repeat split.
  - intros i s. apply get_stored.
  - intros i. apply get_stored_before.
  - intros i. apply get_stored_after.
  - rewrite length_stored. lia.
Qed.

Lemma pack_layout_witness :
  exists packed,
    pack (Some hexagonSpec) (Some []) (Some 0%nat) exampleStore = Returns packed /\
    length packed = 25%nat.
Proof.
  destruct (pack_layout hexagonSpec exampleStore shortPath hexagon Ellipsoid.WGS84_radii [] 0)
    as (packed & Hpack & _ & _ & _ & _ & Hlen).
  - constructor; try reflexivity; by vm_compute.
  - exists packed. split; [exact Hpack | exact Hlen].
Defined.

(** C4 as stated fails: with [N = 2] path points and [M = 6] shape points
    the claim counts [2 + 3N + 2M + K = 23] slots, but [pack] also writes
    the slots 23 and 24 (corner style and granularity): 25 slots in all. *)
Lemma pack_slot_count_counterexample :
  exists packed,
    pack (Some hexagonSpec) (Some []) (Some 0%nat) exampleStore = Returns packed /\
    length (_positions hexagonSpec) = 2%nat /\
    length (_shape hexagonSpec) = 6%nat /\
    JS.get packed (2 + 3 * 2 + 2 * 6 + Ellipsoid.packedLength) = CornerType.ROUNDED /\
    JS.get packed (2 + 3 * 2 + 2 * 6 + Ellipsoid.packedLength + 1) = CesiumMath.RADIANS_PER_DEGREE /\
    length packed <> (2 + 3 * 2 + 2 * 6 + Ellipsoid.packedLength)%nat.
Proof. eexists. split; [by vm_compute|]. by vm_compute. Qed.

Lemma scratchLinked_initial : scratchLinked initial.
Proof. reflexivity. Qed.

(** [unpack] without a result object, on the array [pack] leaves. *)
Lemma unpack_stored_fresh (array : list value) (startingIndex : option nat)
  (path : list Cartesian3.t) (shape : list Cartesian2.t) (radii : Cartesian3.t)
  (cT gr : value) (s : state) :
  (Z.of_nat (length path) <= MAX_ARRAY_LENGTH)%Z ->
  (Z.of_nat (length shape) <= MAX_ARRAY_LENGTH)%Z ->
  scratchLinked s ->
  let h := <[scratchEllipsoid := {| Ellipsoid._radii := radii |}]> (ellipsoids s) in
  unpack (Some (Wire.stored array (defaultOpt startingIndex 0%nat)
                  (Wire.format path shape radii cT gr)))
    startingIndex None s
  = Returns
      ({| _positions := Some <$> path;
          _shape := Some <$> shape;
          _ellipsoid := fresh (dom h);
          _cornerType := defaultValue cT CornerType.ROUNDED;
          _granularity := defaultValue gr CesiumMath.RADIANS_PER_DEGREE;
          packedLength :=
            (1 + length (Some <$> path) * Cartesian3.packedLength
             + (1 + length (Some <$> shape) * Cartesian2.packedLength)
             + Ellipsoid.packedLength + 2)%nat |},
       {| ellipsoids := <[fresh (dom h) := {| Ellipsoid._radii := radii |}]> h;
          scratchOptions :=
            {| polylinePositions := Some (Some <$> path);
               shapePositions := Some (Some <$> shape);
               ellipsoid := ellipsoid (scratchOptions s);
               height := height (scratchOptions s);
               cornerType := cT;
               granularity := gr |} |}).
Proof.
  intros HN HM Hs h. rewrite unpack_stored by done. cbv zeta. fold h.
  rewrite (new_spec _ h (Some <$> path) (Some <$> shape) {| Ellipsoid._radii := radii |});
    [done|done|done|].
  cbn [ellipsoid]. rewrite Hs. cbn [defaultOpt]. apply lookup_insert_eq.
Qed.

(** [unpack] into a result object, on the array [pack] leaves. *)
Lemma unpack_stored_result (array : list value) (startingIndex : option nat)
  (path : list Cartesian3.t) (shape : list Cartesian2.t) (radii : Cartesian3.t)
  (cT gr : value) (result : t) (s : state) :
  (Z.of_nat (length path) <= MAX_ARRAY_LENGTH)%Z ->
  (Z.of_nat (length shape) <= MAX_ARRAY_LENGTH)%Z ->
  unpack (Some (Wire.stored array (defaultOpt startingIndex 0%nat)
                  (Wire.format path shape radii cT gr)))
    startingIndex (Some result) s
  = Returns
      ({| _positions := Some <$> path;
          _shape := Some <$> shape;
          _ellipsoid := _ellipsoid result;
          _cornerType := cT;
          _granularity := gr;
          packedLength := packedLength result |},
       {| ellipsoids :=
            <[_ellipsoid result := {| Ellipsoid._radii := radii |}]>
              (<[scratchEllipsoid := {| Ellipsoid._radii := radii |}]> (ellipsoids s));
          scratchOptions := scratchOptions s |}).
Proof.
  intros HN HM. rewrite unpack_stored by done. cbv zeta.
  unfold Ellipsoid.clone, Ellipsoid.read. by rewrite lookup_insert_eq.
Qed.

Lemma defaultValue_defined (a b : value) : defined a = true -> defaultValue a b = a.
Proof. by destruct a. Qed.

(** C2: for every valid instance, unpacking the array that
    [pack(value, array, 0)] leaves gives an instance with the same path
    points, the same shape points, the same reference-surface radii, the
    same corner-style code and the same granularity, with or without a
    result object. *)
Theorem unpack_pack_round_trip (v : t) (h : gmap positive Ellipsoid.object)
  (path : list Cartesian3.t) (shape : list Cartesian2.t) (radii : Cartesian3.t)
  (array : list value) (result : option t) (s : state) :
  validSpec v h path shape radii ->
  scratchLinked s ->
  exists packed v' s',
    pack (Some v) (Some array) (Some 0%nat) h = Returns packed /\
    unpack (Some packed) (Some 0%nat) result s = Returns (v', s') /\
    _positions v' = _positions v /\
    _shape v' = _shape v /\
    radiiOf (ellipsoids s') v' = radiiOf h v /\
    _cornerType v' = _cornerType v /\
    _granularity v' = _granularity v.
Proof.
  intros Hv Hs. pose proof Hv as [Hp Hsh He HN HM HcT Hgr].
  eexists. rewrite (pack_spec v h path shape radii array (Some 0%nat) Hv).
  assert (radiiOf h v = Some radii) as -> by (unfold radiiOf; by rewrite He).
  destruct result as [r|].
  - rewrite (unpack_stored_result array (Some 0%nat)) by done.
    eexists _, _. split; [done|]. split; [done|].
    cbn [_positions _shape _cornerType _granularity ellipsoids].
    unfold radiiOf. cbn [_ellipsoid]. rewrite lookup_insert_eq. done.
  - rewrite (unpack_stored_fresh array (Some 0%nat)) by done.
    eexists _, _. split; [done|]. split; [done|].
    cbn [_positions _shape _cornerType _granularity ellipsoids].
    unfold radiiOf. cbn [_ellipsoid]. rewrite lookup_insert_eq.
    by rewrite !defaultValue_defined.
Qed.

Lemma unpack_pack_round_trip_witness :
  exists packed v' s',
    pack (Some hexagonSpec) (Some []) (Some 0%nat) exampleStore = Returns packed /\
    unpack (Some packed) (Some 0%nat) None exampleState = Returns (v', s') /\
    _positions v' = _positions hexagonSpec /\
    _shape v' = _shape hexagonSpec /\
    radiiOf (ellipsoids s') v' = radiiOf exampleStore hexagonSpec /\
    _cornerType v' = _cornerType hexagonSpec /\
    _granularity v' = _granularity hexagonSpec.
Proof.
  apply (unpack_pack_round_trip hexagonSpec exampleStore shortPath hexagon
           Ellipsoid.WGS84_radii [] None exampleState).
  - constructor; try reflexivity; by vm_compute.
  - reflexivity.
Defined.

Lemma bind_Returns {A B} (m : outcome A) (k : A -> outcome B) (b : B) :
  m ≫= k = Returns b -> exists a, m = Returns a /\ k a = Returns b.
Proof. destruct m as [a| |]; [by exists a|done|done]. Qed.

(** Whatever the array holds, [unpack] into a result object keeps the
    [packedLength] and the ellipsoid object of the result, and the
    [scratchOptions]. *)
Lemma unpack_result_keeps (array : list value) (startingIndex : option nat)
  (result : t) (s : state) (v' : t) (s' : state) :
  unpack (Some array) startingIndex (Some result) s = Returns (v', s') ->
  packedLength v' = packedLength result /\
  _ellipsoid v' = _ellipsoid result /\
  scratchOptions s' = scratchOptions s.
Proof.
  unfold unpack. intros H.
  apply bind_Returns in H as (positions & _ & H).
  apply bind_Returns in H as ([positions' i1] & _ & H).
  apply bind_Returns in H as (shape & _ & H).
  apply bind_Returns in H as ([shape' i2] & _ & H).
  unfold Ellipsoid.unpack in H.
  apply bind_Returns in H as ([e h] & He & H).
  unfold Ellipsoid.clone in He.
  apply bind_Returns in He as (radii & _ & He).
  by simplify_eq.
Qed.

(** The module invariant on [scratchOptions] survives [unpack]. *)
Lemma unpack_scratchLinked (array : list value) (startingIndex : option nat)
  (result : option t) (s : state) (v' : t) (s' : state) :
  scratchLinked s ->
  unpack (Some array) startingIndex result s = Returns (v', s') ->
  scratchLinked s'.
Proof.
  unfold unpack, scratchLinked. intros Hs H.
  apply bind_Returns in H as (positions & _ & H).
  apply bind_Returns in H as ([positions' i1] & _ & H).
  apply bind_Returns in H as (shape & _ & H).
  apply bind_Returns in H as ([shape' i2] & _ & H).
  unfold Ellipsoid.unpack in H. destruct result as [r|].
  - apply bind_Returns in H as ([e h] & _ & H). by simplify_eq.
  - apply bind_Returns in H as ([g h] & _ & H). by simplify_eq.
Qed.

(** C9, as the code has it: [unpack] into a result object, on a packed
    array, overwrites the path, the shape, the reference-surface radii, the
    corner style and the granularity of the result with the decoded values
    and returns it, and leaves [packedLength] as it was; so the returned
    [packedLength] stops matching the slot count needed to pack the
    instance again exactly when three times the path length plus twice the
    shape length is not what it was at construction. *)
Theorem unpack_result_packedLength (v : t) (h : gmap positive Ellipsoid.object)
  (path : list Cartesian3.t) (shape : list Cartesian2.t) (radii : Cartesian3.t)
  (array : list value) (startingIndex : option nat) (packed : list value)
  (result : t) (s : state) :
  validSpec v h path shape radii ->
  pack (Some v) (Some array) startingIndex h = Returns packed ->
  exists v' s',
    unpack (Some packed) startingIndex (Some result) s = Returns (v', s') /\
    _positions v' = _positions v /\
    _shape v' = _shape v /\
    radiiOf (ellipsoids s') v' = Some radii /\
    _cornerType v' = _cornerType v /\
    _granularity v' = _granularity v /\
    _ellipsoid v' = _ellipsoid result /\
    packedLength v' = packedLength result /\
    (packedLength result = Wire.slotsNeeded result ->
     (packedLength v' <> Wire.slotsNeeded v' <->
      (3 * length (_positions v') + 2 * length (_shape v')
       <> 3 * length (_positions result) + 2 * length (_shape result))%nat)).
Proof.
  intros Hv Hpack. pose proof Hv as [Hp Hsh He HN HM HcT Hgr].
  rewrite (pack_spec v h path shape radii array startingIndex Hv) in Hpack.
  injection Hpack as <-.
  rewrite (unpack_stored_result array startingIndex) by done.
  eexists _, _. split; [done|].
  cbn [_positions _shape _cornerType _granularity ellipsoids _ellipsoid packedLength].
  do 2 (split; [done|]). split.
  - unfold radiiOf. cbn [_ellipsoid]. by rewrite lookup_insert_eq.
  - do 4 (split; [done|]). intros ->.
    unfold Wire.slotsNeeded. cbn [_positions _shape].
    unfold Cartesian3.packedLength, Cartesian2.packedLength. lia.
Qed.

Lemma unpack_result_packedLength_witness :
  exists v' s',
    unpack (Some (Wire.stored [] 0
                    (Wire.format shortPath hexagon Ellipsoid.WGS84_radii
                       CornerType.ROUNDED CesiumMath.RADIANS_PER_DEGREE)))
      (Some 0%nat) (Some triangleSpec) exampleState = Returns (v', s') /\
    _positions v' = Some <$> shortPath /\
    packedLength v' = 25%nat.
Proof.
  destruct (unpack_result_packedLength hexagonSpec exampleStore shortPath hexagon
              Ellipsoid.WGS84_radii [] (Some 0%nat)
              (Wire.stored [] 0
                 (Wire.format shortPath hexagon Ellipsoid.WGS84_radii
                    CornerType.ROUNDED CesiumMath.RADIANS_PER_DEGREE))
              triangleSpec exampleState)
    as (v' & s' & Hu & Hp & _ & _ & _ & _ & _ & Hl & _).
  - constructor; try reflexivity; by vm_compute.
  - by vm_compute.
  - exists v', s'. split; [exact Hu|]. split; [exact Hp | exact Hl].
Defined.

(** C9 as stated fails: the result object was constructed with 2 path
    points and 6 shape points, the array encodes 4 path points and 3 shape
    points; both lengths differ, yet the [packedLength] that [unpack] leaves
    untouched, 25, is the slot count needed to pack the returned instance. *)
Lemma unpack_result_packedLength_counterexample :
  exists packed v' s',
    pack (Some triangleSpec) (Some []) (Some 0%nat) exampleStore = Returns packed /\
    packedLength hexagonSpec = Wire.slotsNeeded hexagonSpec /\
    unpack (Some packed) (Some 0%nat) (Some hexagonSpec) exampleState = Returns (v', s') /\
    length (_positions v') <> length (_positions hexagonSpec) /\
    length (_shape v') <> length (_shape hexagonSpec) /\
    packedLength v' = Wire.slotsNeeded v'.
Proof.
  eexists _, _, _. split; [by vm_compute|]. split; [by vm_compute|].
  split; [by vm_compute|]. by vm_compute.
Qed.

Lemma hexagonSpec_constructed :
  new (Some hexagonOptions) (ellipsoids initial) = Returns (hexagonSpec, exampleStore).
Proof. by vm_compute. Qed.

(** C10: [unpack] without a result object, on a packed array, returns an
    instance whose ellipsoid is a new object, not the scratch instance,
    holding the radii read from the array; after a second such call on
    another packed array the first instance still holds the radii of the
    first array, and the second instance those of the second. *)
Theorem unpack_fresh_ellipsoid
  (v1 v2 : t) (h : gmap positive Ellipsoid.object)
  (path1 path2 : list Cartesian3.t) (shape1 shape2 : list Cartesian2.t)
  (radii1 radii2 : Cartesian3.t)
  (array1 array2 packed1 packed2 : list value) (index1 index2 : option nat)
  (s0 : state) :
  validSpec v1 h path1 shape1 radii1 ->
  validSpec v2 h path2 shape2 radii2 ->
  pack (Some v1) (Some array1) index1 h = Returns packed1 ->
  pack (Some v2) (Some array2) index2 h = Returns packed2 ->
  scratchLinked s0 ->
  exists u1 s1 u2 s2,
    unpack (Some packed1) index1 None s0 = Returns (u1, s1) /\
    unpack (Some packed2) index2 None s1 = Returns (u2, s2) /\
    _ellipsoid u1 <> scratchEllipsoid /\
    ellipsoids s0 !! _ellipsoid u1 = None /\
    radiiOf (ellipsoids s1) u1 = Some radii1 /\
    radiiOf (ellipsoids s2) u1 = Some radii1 /\
    _ellipsoid u2 <> scratchEllipsoid /\
    _ellipsoid u2 <> _ellipsoid u1 /\
    radiiOf (ellipsoids s2) u2 = Some radii2.
Proof.
  intros Hv1 Hv2 Hp1 Hp2 Hs0.
  rewrite (pack_spec v1 h path1 shape1 radii1 array1 index1 Hv1) in Hp1.
  rewrite (pack_spec v2 h path2 shape2 radii2 array2 index2 Hv2) in Hp2.
  injection Hp1 as <-. injection Hp2 as <-.
  destruct Hv1 as [_ _ _ HN1 HM1 _ _]. destruct Hv2 as [_ _ _ HN2 HM2 _ _].
  rewrite (unpack_stored_fresh array1 index1) by done. cbv zeta.
  set (h1 := <[scratchEllipsoid := {| Ellipsoid._radii := radii1 |}]> (ellipsoids s0)).
  set (e1 := fresh (dom h1)).
  eexists _, _. eexists. eexists. split; [reflexivity|].
  rewrite (unpack_stored_fresh array2 index2) by done. cbv zeta.
  cbn [ellipsoids _ellipsoid].
  set (h2 := <[scratchEllipsoid := {| Ellipsoid._radii := radii2 |}]>
               (<[e1 := {| Ellipsoid._radii := radii1 |}]> h1)).
  set (e2 := fresh (dom h2)).
  split; [reflexivity|].
  assert (e1 ∉ dom h1) as Hfresh1 by apply is_fresh.
  assert (e2 ∉ dom h2) as Hfresh2 by apply is_fresh.
  assert (e1 <> scratchEllipsoid) as Hne1.
  { intros Heq. apply Hfresh1. rewrite Heq. unfold h1. set_solver. }
  assert (e2 <> scratchEllipsoid) as Hne2.
  { intros Heq. apply Hfresh2. rewrite Heq. unfold h2. set_solver. }
  assert (e2 <> e1) as Hne21.
  { intros Heq. apply Hfresh2. rewrite Heq. unfold h2. set_solver. }
  unfold radiiOf. cbn [_ellipsoid ellipsoids]. repeat split; try done.
  - apply not_elem_of_dom. intros Hin. apply Hfresh1. unfold h1. set_solver.
  - by rewrite lookup_insert_eq.
  - rewrite lookup_insert_ne by done. unfold h2.
    rewrite lookup_insert_ne by done. by rewrite lookup_insert_eq.
  - by rewrite lookup_insert_eq.
Qed.

Lemma unpack_fresh_ellipsoid_witness :
  exists u1 s1 u2 s2,
    unpack (Some (Wire.stored [] 0
                    (Wire.format shortPath hexagon Ellipsoid.WGS84_radii
                       CornerType.ROUNDED CesiumMath.RADIANS_PER_DEGREE)))
      (Some 0%nat) None exampleState = Returns (u1, s1) /\
    unpack (Some (Wire.stored [] 0
                    (Wire.format longPath triangle Ellipsoid.UNIT_SPHERE_radii
                       CornerType.MITERED (number (1 # 10)))))
      (Some 0%nat) None s1 = Returns (u2, s2) /\
    radiiOf (ellipsoids s2) u1 = Some Ellipsoid.WGS84_radii /\
    radiiOf (ellipsoids s2) u2 = Some Ellipsoid.UNIT_SPHERE_radii.
Proof.
  destruct (unpack_fresh_ellipsoid hexagonSpec triangleSpec exampleStore
              shortPath longPath hexagon triangle
              Ellipsoid.WGS84_radii Ellipsoid.UNIT_SPHERE_radii [] []
              (Wire.stored [] 0
                 (Wire.format shortPath hexagon Ellipsoid.WGS84_radii
                    CornerType.ROUNDED CesiumMath.RADIANS_PER_DEGREE))
              (Wire.stored [] 0
                 (Wire.format longPath triangle Ellipsoid.UNIT_SPHERE_radii
                    CornerType.MITERED (number (1 # 10))))
              (Some 0%nat) (Some 0%nat) exampleState)
    as (u1 & s1 & u2 & s2 & H1 & H2 & _ & _ & _ & Hr1 & _ & _ & Hr2).
  - constructor; try reflexivity; by vm_compute.
  - constructor; try reflexivity; by vm_compute.
  - by vm_compute.
  - by vm_compute.
  - reflexivity.
  - exists u1, s1, u2, s2. repeat split; assumption.
Defined.

End SerializerClaims.

(** ** Claims about [createGeometry] *)

Section CreateGeometryClaims.

Import PolylineVolumeOutlineGeometry.
Local Open Scope Q_scope.

Context {BoundingSphere BoundingRectangle : Type}.
Variable BoundingSphere_fromVertices : list Q -> BoundingSphere.
Variable BoundingRectangle_fromPoints : list (option Cartesian2.t) -> BoundingRectangle.
Variable removeDuplicatesFromPositions :
  list (option Cartesian3.t) -> Ellipsoid.ref -> gmap positive Ellipsoid.object ->
  list (option Cartesian3.t).
Variable removeDuplicatesFromShape :
  list (option Cartesian2.t) -> list (option Cartesian2.t).
Variable computePositions :
  list (option Cartesian3.t) -> list (option Cartesian2.t) -> BoundingRectangle ->
  PolylineVolumeOutlineGeometry.t -> gmap positive Ellipsoid.object -> bool -> list Q.

Local Abbreviation create :=
  (createGeometry BoundingSphere_fromVertices BoundingRectangle_fromPoints
     removeDuplicatesFromPositions removeDuplicatesFromShape computePositions).

(** A loop whose body always returns, returns. *)
Lemma for_loop_returns {St} (body : nat -> St -> outcome St) :
  (forall i s, exists s', body i s = Returns s') ->
  forall n from s, exists s', for_loop n from body s = Returns s'.
Proof.
  intros Hbody. induction n as [|n IH]; intros from s.
  - by exists s.
  - destruct (Hbody from s) as [s1 H1]. destruct (IH (S from) s1) as [s2 H2].
    exists s2. simpl. by rewrite H1.
Qed.

Lemma bind_returns {A B} (m : outcome A) (k : A -> outcome B) :
  (exists a, m = Returns a) -> (forall a, exists b, k a = Returns b) ->
  exists b, JS.bind m k = Returns b.
Proof. intros [a ->] Hk. apply Hk. Qed.

Lemma writeRing_returns (shapeLength offset : Q) (st : TypedArray * nat) :
  exists st', writeRing shapeLength offset st = Returns st'.
Proof.
  unfold writeRing. apply bind_returns.
  - apply for_loop_returns. intros j [ta i]. by eexists.
  - intros [ta i]. by eexists.
Qed.

(** The index loops either return, or the buffer cannot be allocated, or
    the shape is empty. *)
Lemma computeIndices_outcome (positions : list Q) (shape : list (option Cartesian2.t)) :
  computeIndices positions shape = NonFinite \/
  computeIndices positions shape = Throws RangeError \/
  exists st, computeIndices positions shape = Returns st.
Proof.
  unfold computeIndices.
  destruct (Qeq_bool _ _); [by left|].
  unfold IndexDatatype.createTypedArray, TypedArray_new.
  destruct (_ <? 0)%Z; [by right; left|]. right. right.
  cbn [mbind outcome_bind JS.bind].
  apply bind_returns; [apply writeRing_returns|]. intros [ta1 i1].
  apply bind_returns; [apply writeRing_returns|]. intros [ta2 i2].
  apply for_loop_returns.
  intros i st. apply for_loop_returns. intros j [ta k]. by eexists.
Qed.

(** [computeAttributes] raises no precondition error. *)
Lemma computeAttributes_no_DeveloperError (positions : list Q)
  (shape : list (option Cartesian2.t)) (message : string) :
  computeAttributes BoundingSphere_fromVertices positions shape
  <> Throws (DeveloperError message).
Proof.
  unfold computeAttributes.
  destruct (computeIndices_outcome positions shape) as [-> | [-> | [[ta i] ->]]];
    cbn [mbind outcome_bind JS.bind]; congruence.
Qed.

Lemma computeWindingOrder2D_no_DeveloperError (shape : list (option Cartesian2.t))
  (message : string) :
  PolygonPipeline.computeWindingOrder2D shape <> Throws (DeveloperError message).
Proof.
  unfold PolygonPipeline.computeWindingOrder2D, PolygonPipeline.computeArea2D.
  assert (forall s, PolygonPipeline.all_coordinates s <> Throws (DeveloperError message)) as H.
  { induction s as [|p s IH]; [done|]. simpl.
    destruct p as [[[|x] [|y]]|]; try done; simpl;
      destruct (PolygonPipeline.all_coordinates s); done. }
  specialize (H shape).
  destruct (PolygonPipeline.all_coordinates shape); simpl; congruence.
Qed.

(** C6: [createGeometry] fails with a precondition error, and so produces
    no geometry, exactly when the path has fewer than 2 points or the shape
    fewer than 3 points once duplicates are removed; a path left with a
    single point fails, and a shape left with 2 points or fewer fails. *)
Theorem createGeometry_precondition (g : PolylineVolumeOutlineGeometry.t)
  (h : gmap positive Ellipsoid.object) :
  let cleanPath := removeDuplicatesFromPositions (_positions g) (_ellipsoid g) h in
  let cleanShape := removeDuplicatesFromShape (_shape g) in
  ((exists message, create g h = Throws (DeveloperError message))
   <-> (length cleanPath < 2)%nat \/ (length cleanShape < 3)%nat) /\
  ((length cleanPath <= 1)%nat ->
   create g h
   = Throws (DeveloperError "Count of unique polyline positions must be greater than 1.")) /\
  ((length cleanShape <= 2)%nat ->
   exists message, create g h = Throws (DeveloperError message)) /\
  ((length cleanPath < 2)%nat \/ (length cleanShape < 3)%nat ->
   forall geometry, create g h <> Returns geometry).
Proof.
  intros cleanPath cleanShape. unfold createGeometry.
  fold cleanPath. fold cleanShape. repeat split.
  - intros [message H].
    destruct (decide (length cleanPath < 2)%nat); [by left|].
    destruct (decide (length cleanShape < 3)%nat); [by right|].
    exfalso.
    destruct (PolygonPipeline.computeWindingOrder2D cleanShape) as [order| |] eqn:E.
    + cbn [mbind outcome_bind JS.bind] in H.
      by apply computeAttributes_no_DeveloperError in H.
    + cbn [mbind outcome_bind JS.bind] in H. injection H as ->.
      by apply computeWindingOrder2D_no_DeveloperError in E.
    + done.
  - intros [H|H].
    + rewrite decide_True by done. by eexists.
    + destruct (decide (length cleanPath < 2)%nat); [by eexists|].
      rewrite decide_True by done. by eexists.
  - intros H. by rewrite decide_True by lia.
  - intros H. destruct (decide (length cleanPath < 2)%nat); [by eexists|].
    rewrite decide_True by lia. by eexists.
  - intros H geometry. destruct (decide (length cleanPath < 2)%nat); [done|].
    by rewrite decide_True by lia.
Qed.

(** C5: for a shape left with at least 3 points: when its shoelace signed
    area is negative (clockwise), [createGeometry] hands the reversed
    shape to the sweeper and to the topology builder, and that shape is
    counter-clockwise; when the signed area is positive (counter-clockwise
    already), it hands the shape on in its order. *)
Theorem createGeometry_winding (g : PolylineVolumeOutlineGeometry.t)
  (h : gmap positive Ellipsoid.object) (area : Q) :
  let cleanPath := removeDuplicatesFromPositions (_positions g) (_ellipsoid g) h in
  let cleanShape := removeDuplicatesFromShape (_shape g) in
  (2 <= length cleanPath)%nat ->
  (3 <= length cleanShape)%nat ->
  PolygonPipeline.computeArea2D cleanShape = Returns area ->
  (area < 0 ->
   PolygonPipeline.computeWindingOrder2D cleanShape = Returns WindingOrder.CLOCKWISE /\
   PolygonPipeline.computeWindingOrder2D (reverse cleanShape)
   = Returns WindingOrder.COUNTER_CLOCKWISE /\
   create g h
   = computeAttributes BoundingSphere_fromVertices
       (computePositions cleanPath (reverse cleanShape)
          (BoundingRectangle_fromPoints (reverse cleanShape)) g h false)
       (reverse cleanShape)) /\
  (0 < area ->
   PolygonPipeline.computeWindingOrder2D cleanShape
   = Returns WindingOrder.COUNTER_CLOCKWISE /\
   create g h
   = computeAttributes BoundingSphere_fromVertices
       (computePositions cleanPath cleanShape
          (BoundingRectangle_fromPoints cleanShape) g h false)
       cleanShape).
Proof.
  intros cleanPath cleanShape H2 H3 Harea.
  unfold createGeometry. fold cleanPath. fold cleanShape.
  rewrite !decide_False by lia.
  unfold PolygonPipeline.computeWindingOrder2D. rewrite Harea.
  cbn [mbind outcome_bind JS.bind]. split; intros Hsign.
  - destruct (computeArea2D_reverse _ _ Harea) as (area' & -> & Hneg).
    cbn [mbind outcome_bind JS.bind].
    destruct (Qlt_le_dec area 0) as [_|Hle]; [|by apply Qle_not_lt in Hle].
    destruct (Qlt_le_dec area' 0) as [Hlt|_].
    + rewrite Hneg in Hlt. exfalso. apply (Qlt_irrefl 0).
      apply Qlt_trans with (- area); [|done].
      rewrite <- (Qopp_involutive 0) . by apply Qopp_lt_compat.
    + by rewrite decide_True by done.
  - destruct (Qlt_le_dec area 0) as [Hlt|_].
    + exfalso. apply (Qlt_irrefl 0). by apply Qlt_trans with area.
    + by rewrite decide_False by done.
Qed.

End CreateGeometryClaims.

(** The claims on a clockwise triangle, with duplicate filters that find no
    duplicate and a sweeper that emits two cross-sections. *)

Lemma createGeometry_winding_witness :
  PolygonPipeline.computeWindingOrder2D (reverse (Some <$> triangle))
  = Returns WindingOrder.COUNTER_CLOCKWISE /\
  createGeometry (fun _ => tt) (fun _ => tt) keepPositions keepShape sweepTwice
    triangleSpec exampleStore
  = computeAttributes (fun _ => tt)
      (sweepTwice (Some <$> longPath) (reverse (Some <$> triangle)) tt
         triangleSpec exampleStore false)
      (reverse (Some <$> triangle)).
Proof.
  destruct (createGeometry_winding (fun _ => tt) (fun _ => tt) keepPositions keepShape
              sweepTwice triangleSpec exampleStore (-1 # 2))
    as [Hclockwise _].
  - simpl. lia.
  - simpl. lia.
  - reflexivity.
  - destruct Hclockwise as (_ & Hccw & Hcreate); [reflexivity|].
    split; [exact Hccw | exact Hcreate].
Defined.

Lemma createGeometry_precondition_witness :
  createGeometry (fun _ => tt) (fun _ => tt) keepPositions keepShape sweepTwice
    singlePointSpec exampleStore
  = Throws (DeveloperError "Count of unique polyline positions must be greater than 1.").
Proof.
  apply (createGeometry_precondition (fun _ => tt) (fun _ => tt) keepPositions keepShape
           sweepTwice singlePointSpec exampleStore).
  simpl. lia.
Defined.

(** ** Further properties of the constructor and the serializer *)

Section SerializerProperties.

Import PolylineVolumeOutlineGeometry.

(** What [unpack] returns on an array that holds a wire format. *)
Lemma unpack_holds_spec (array : list value) (offset : nat)
  (path : list Cartesian3.t) (shape : list Cartesian2.t) (radii : Cartesian3.t)
  (cT gr : value) (result : option t) (s : state) :
  holdsAt array offset (Wire.format path shape radii cT gr) ->
  (Z.of_nat (length path) <= MAX_ARRAY_LENGTH)%Z ->
  (Z.of_nat (length shape) <= MAX_ARRAY_LENGTH)%Z ->
  scratchLinked s ->
  exists v' s',
    unpack (Some array) (Some offset) result s = Returns (v', s') /\
    _positions v' = Some <$> path /\
    _shape v' = Some <$> shape /\
    radiiOf (ellipsoids s') v' = Some radii /\
    _cornerType v' = match result with
                     | Some _ => cT
                     | None => defaultValue cT CornerType.ROUNDED
                     end /\
    _granularity v' = match result with
                      | Some _ => gr
                      | None => defaultValue gr CesiumMath.RADIANS_PER_DEGREE
                      end /\
    packedLength v' = match result with
                      | Some r => packedLength r
                      | None => Wire.slotsNeeded v'
                      end /\
    scratchLinked s'.
Proof.
  intros H HN HM Hs. rewrite (unpack_holds array (Some offset) path shape radii cT gr) by done.
  destruct result as [r|].
  - rewrite (unpack_stored_result array (Some offset)) by done.
    eexists _, _. split; [done|].
    cbn [_positions _shape _cornerType _granularity packedLength ellipsoids].
    do 2 (split; [done|]). split; [|done].
    unfold radiiOf. cbn [_ellipsoid]. by rewrite lookup_insert_eq.
  - rewrite (unpack_stored_fresh array (Some offset)) by done.
    eexists _, _. split; [done|].
    cbn [_positions _shape _cornerType _granularity packedLength ellipsoids].
    do 2 (split; [done|]). split.
    + unfold radiiOf. cbn [_ellipsoid]. by rewrite lookup_insert_eq.
    + do 2 (split; [done|]). split; [|done].
      unfold Wire.slotsNeeded. cbn [_positions _shape]. lia.
Qed.

Lemma slotsNeeded_format (v : t) path shape radii cT gr :
  _positions v = Some <$> path -> _shape v = Some <$> shape ->
  Wire.slotsNeeded v = length (Wire.format path shape radii cT gr).
Proof.
  intros Hp Hs. rewrite length_format. unfold Wire.slotsNeeded.
  rewrite Hp, Hs, !length_fmap.
  unfold Cartesian3.packedLength, Cartesian2.packedLength. lia.
Qed.

(** X1: the outcome of [unpack] depends on the packed region only: two
    arrays that hold the same wire format, each at its own starting index,
    unpack to the same instance and the same state, and the call returns. *)
Theorem unpack_depends_on_region_only
  (array1 array2 : list value) (offset1 offset2 : nat)
  (path : list Cartesian3.t) (shape : list Cartesian2.t) (radii : Cartesian3.t)
  (cT gr : value) (result : option t) (s : state) :
  holdsAt array1 offset1 (Wire.format path shape radii cT gr) ->
  holdsAt array2 offset2 (Wire.format path shape radii cT gr) ->
  (Z.of_nat (length path) <= MAX_ARRAY_LENGTH)%Z ->
  (Z.of_nat (length shape) <= MAX_ARRAY_LENGTH)%Z ->
  scratchLinked s ->
  unpack (Some array1) (Some offset1) result s
  = unpack (Some array2) (Some offset2) result s /\
  exists v' s', unpack (Some array1) (Some offset1) result s = Returns (v', s').
Proof.
  intros H1 H2 HN HM Hs. split.
  - rewrite (unpack_holds array1 (Some offset1) path shape radii cT gr) by done.
    rewrite (unpack_holds array2 (Some offset2) path shape radii cT gr) by done.
    by rewrite !unpack_stored by done.
  - destruct (unpack_holds_spec array1 offset1 path shape radii cT gr result s)
      as (v' & s' & Hu & _); try done. by exists v', s'.
Qed.

(** X2: two valid instances packed back to back, the second at the
    starting index of the first plus the first's [packedLength], do not
    overlap: each unpacks from its own starting index to its own
    description and radii. *)
Theorem pack_back_to_back (v1 v2 : t) (h : gmap positive Ellipsoid.object)
  (path1 path2 : list Cartesian3.t) (shape1 shape2 : list Cartesian2.t)
  (radii1 radii2 : Cartesian3.t) (array : list value) (offset : nat) (s : state) :
  validSpec v1 h path1 shape1 radii1 ->
  validSpec v2 h path2 shape2 radii2 ->
  packedConsistent v1 ->
  scratchLinked s ->
  exists a1 a2 u1 s1 u2 s2,
    pack (Some v1) (Some array) (Some offset) h = Returns a1 /\
    pack (Some v2) (Some a1) (Some (offset + packedLength v1)%nat) h = Returns a2 /\
    unpack (Some a2) (Some offset) None s = Returns (u1, s1) /\
    unpack (Some a2) (Some (offset + packedLength v1)%nat) None s1 = Returns (u2, s2) /\
    sameDescription v1 u1 /\ radiiOf (ellipsoids s1) u1 = Some radii1 /\
    sameDescription v2 u2 /\ radiiOf (ellipsoids s2) u2 = Some radii2.
Proof.
  intros Hv1 Hv2 Hc Hs.
  pose proof Hv1 as [Hp1 Hsh1 He1 HN1 HM1 HcT1 Hgr1].
  pose proof Hv2 as [Hp2 Hsh2 He2 HN2 HM2 HcT2 Hgr2].
  set (f1 := Wire.format path1 shape1 radii1 (_cornerType v1) (_granularity v1)).
  set (f2 := Wire.format path2 shape2 radii2 (_cornerType v2) (_granularity v2)).
  assert (packedLength v1 = length f1) as Hlen.
  { rewrite Hc. by apply slotsNeeded_format. }
  eexists _, _. 
  rewrite (pack_spec v1 h path1 shape1 radii1 array (Some offset) Hv1).
  rewrite (pack_spec v2 h path2 shape2 radii2 _ (Some (offset + packedLength v1)%nat) Hv2).
  cbn [defaultOpt]. fold f1. fold f2. rewrite Hlen.
  set (a1 := Wire.stored array offset f1).
  set (a2 := Wire.stored a1 (offset + length f1) f2).
  assert (holdsAt a2 offset f1) as Hh1.
  { apply holdsAt_stored_after; [apply holdsAt_stored|lia]. }
  assert (holdsAt a2 (offset + length f1) f2) as Hh2 by apply holdsAt_stored.
  destruct (unpack_holds_spec a2 offset path1 shape1 radii1 _ _ None s Hh1 HN1 HM1 Hs)
    as (u1 & s1 & Hu1 & Hpos1 & Hshape1 & Hr1 & HcT1' & Hgr1' & _ & Hs1).
  destruct (unpack_holds_spec a2 (offset + length f1) path2 shape2 radii2 _ _ None s1
              Hh2 HN2 HM2 Hs1)
    as (u2 & s2 & Hu2 & Hpos2 & Hshape2 & Hr2 & HcT2' & Hgr2' & _ & _).
  exists u1, s1, u2, s2. do 4 (split; [done|]).
  rewrite defaultValue_defined in HcT1', Hgr1', HcT2', Hgr2' by done.
  unfold sameDescription. rewrite Hp1, Hsh1, Hp2, Hsh2. done.
Qed.

(** X3: packing again what [unpack] returned from a packed array gives the
    same array: neither into the packed array nor into the original one
    does any slot differ. *)
Theorem pack_unpack_pack (v : t) (h : gmap positive Ellipsoid.object)
  (path : list Cartesian3.t) (shape : list Cartesian2.t) (radii : Cartesian3.t)
  (array : list value) (offset : nat) (result : option t) (s : state) :
  validSpec v h path shape radii ->
  scratchLinked s ->
  exists packed v' s',
    pack (Some v) (Some array) (Some offset) h = Returns packed /\
    unpack (Some packed) (Some offset) result s = Returns (v', s') /\
    pack (Some v') (Some packed) (Some offset) (ellipsoids s') = Returns packed /\
    pack (Some v') (Some array) (Some offset) (ellipsoids s') = Returns packed.
Proof.
  intros Hv Hs. pose proof Hv as [Hp Hsh He HN HM HcT Hgr].
  set (f := Wire.format path shape radii (_cornerType v) (_granularity v)).
  eexists. rewrite (pack_spec v h path shape radii array (Some offset) Hv).
  cbn [defaultOpt]. fold f.
  destruct (unpack_holds_spec (Wire.stored array offset f) offset path shape radii
              _ _ result s (holdsAt_stored _ _ _) HN HM Hs)
    as (v' & s' & Hu & Hpos & Hshape & Hr & HcT' & Hgr' & _ & _).
  exists v', s'. split; [done|]. split; [done|].
  assert (_cornerType v' = _cornerType v) as HcTv
    by (rewrite HcT'; destruct result; [done|by apply defaultValue_defined]).
  assert (_granularity v' = _granularity v) as Hgrv
    by (rewrite Hgr'; destruct result; [done|by apply defaultValue_defined]).
  assert (validSpec v' (ellipsoids s') path shape radii) as Hv'.
  { constructor; try done.
    - unfold radiiOf in Hr. destruct (ellipsoids s' !! _ellipsoid v') as [[r]|]; [|done].
      simpl in Hr. by injection Hr as ->.
    - by rewrite HcTv.
    - by rewrite Hgrv. }
  rewrite !(pack_spec v' (ellipsoids s') path shape radii _ (Some offset) Hv').
  cbn [defaultOpt]. rewrite HcTv, Hgrv. fold f. split; [|done].
  f_equal. apply stored_self; [apply holdsAt_stored|apply format_nonempty].
Qed.

(** X4: the [packedLength] the constructor stores is the number of slots
    [pack] writes for the instance: packing at [offset] reaches exactly
    slot [offset + packedLength], and an array shorter than that grows to
    that length. *)
Theorem packedLength_is_what_pack_writes (options : Options)
  (h0 h : gmap positive Ellipsoid.object) (v : t)
  (path : list Cartesian3.t) (shape : list Cartesian2.t)
  (array : list value) (offset : nat) :
  polylinePositions options = Some (Some <$> path) ->
  shapePositions options = Some (Some <$> shape) ->
  (Z.of_nat (length path) <= MAX_ARRAY_LENGTH)%Z ->
  (Z.of_nat (length shape) <= MAX_ARRAY_LENGTH)%Z ->
  new (Some options) h0 = Returns (v, h) ->
  exists packed,
    pack (Some v) (Some array) (Some offset) h = Returns packed /\
    length packed = Nat.max (length array) (offset + packedLength v) /\
    (forall i, (offset + packedLength v <= i)%nat -> JS.get packed i = JS.get array i).
Proof.
  intros Hp Hsh HN HM Hnew. unfold new in Hnew. cbn [defaultOpt] in Hnew.
  rewrite Hp, Hsh in Hnew.
  apply bind_Returns in Hnew as ([e h1] & Hclone & Hnew).
  unfold Ellipsoid.clone in Hclone.
  apply bind_Returns in Hclone as (radii & Hread & Hclone).
  unfold Ellipsoid.alloc in Hclone. simplify_eq.
  set (v := {| _positions := Some <$> path |}).
  assert (validSpec v (<[fresh (dom h0) := {| Ellipsoid._radii := radii |}]> h0)
            path shape radii) as Hv.
  { constructor; try done.
    - apply lookup_insert_eq.
    - cbn [_cornerType v]. by destruct (cornerType options).
    - cbn [_granularity v]. by destruct (granularity options). }
  eexists. split; [exact (pack_spec _ _ path shape radii array (Some offset) Hv)|].
  cbn [defaultOpt].
  assert (packedLength v = length (Wire.format path shape radii (_cornerType v) (_granularity v)))
    as ->.
  { rewrite length_format. cbn [packedLength v]. rewrite !length_fmap.
    unfold Cartesian3.packedLength, Cartesian2.packedLength. lia. }
  split; [rewrite length_stored; lia|]. intros i. apply get_stored_after.
Qed.

(** X5: whatever the array holds, an instance that [unpack] returns
    without a result object has a [packedLength] that is the slot count
    needed to pack it. *)
Theorem unpack_fresh_packedConsistent (array : list value) (startingIndex : option nat)
  (s : state) (v' : t) (s' : state) :
  unpack (Some array) startingIndex None s = Returns (v', s') ->
  packedConsistent v'.
Proof.
  unfold unpack. intros H.
  apply bind_Returns in H as (positions & _ & H).
  apply bind_Returns in H as ([positions' i1] & _ & H).
  apply bind_Returns in H as (shape & _ & H).
  apply bind_Returns in H as ([shape' i2] & _ & H).
  unfold Ellipsoid.unpack in H.
  apply bind_Returns in H as ([g h] & Hnew & H). simplify_eq.
  unfold new in Hnew. cbn [defaultOpt polylinePositions shapePositions] in Hnew.
  apply bind_Returns in Hnew as ([e h1] & _ & Hnew). simplify_eq.
  unfold packedConsistent, Wire.slotsNeeded. cbn [packedLength _positions _shape]. lia.
Qed.

(** The filling loops of [unpack] return, and advance the index by the
    width of a point at each turn, whatever the array holds. *)
Lemma fill_loop_returns {A} (read : nat -> A) (width : nat) :
  forall (n from : nat) (positions : list (option A)) (startingIndex : nat),
    exists positions',
      for_loop n from (fun i '(positions, startingIndex) =>
          Returns (set_with None positions i (Some (read startingIndex)),
                   (startingIndex + width)%nat))
        (positions, startingIndex)
      = Returns (positions', (startingIndex + width * n)%nat).
Proof.
  induction n as [|n IH]; intros from positions startingIndex.
  - exists positions. simpl. do 2 f_equal. lia.
  - cbn [for_loop JS.bind].
    destruct (IH (S from) (set_with None positions from (Some (read startingIndex)))
                (startingIndex + width)%nat) as [positions' ->].
    exists positions'. do 2 f_equal. lia.
Qed.

Lemma new_Array_outcome {A} (count : value) :
  if validCount count then exists a, @new_Array A count = Returns a
  else @new_Array A count = Throws RangeError.
Proof.
  destruct count as [|q]; simpl; [by eexists|].
  destruct (is_array_length q); [by eexists|done].
Qed.

(** X6: [unpack] on an array returns unless one of the two count slots
    holds a number that is no array length, and then it throws a
    RangeError; the shape count is read right after the path points, three
    slots per path point. *)
Theorem unpack_outcome (array : list value) (startingIndex : option nat)
  (result : option t) (s : state) :
  scratchLinked s ->
  let pathCount := JS.get array (defaultOpt startingIndex 0%nat) in
  let shapeCount :=
    JS.get array (S (defaultOpt startingIndex 0%nat)
                  + Cartesian3.packedLength * trips_value pathCount)%nat in
  if validCount pathCount && validCount shapeCount
  then exists v' s', unpack (Some array) startingIndex result s = Returns (v', s')
  else unpack (Some array) startingIndex result s = Throws RangeError.
Proof.
  intros Hs pathCount shapeCount. unfold unpack. fold pathCount.
  pose proof (@new_Array_outcome Cartesian3.t pathCount) as H0.
  destruct (validCount pathCount); [|by rewrite H0].
  destruct H0 as [positions ->]. cbn [mbind outcome_bind JS.bind andb].
  destruct (fill_loop_returns (Cartesian3.unpack array) Cartesian3.packedLength
              (trips_value pathCount) 0 positions (S (defaultOpt startingIndex 0%nat)))
    as [positions' ->].
  cbn [mbind outcome_bind JS.bind].
  pose proof (@new_Array_outcome Cartesian2.t shapeCount) as H1.
  subst shapeCount. cbv zeta in H1.
  destruct (validCount _); [|by rewrite H1].
  destruct H1 as [shape ->]. cbn [mbind outcome_bind JS.bind].
  match goal with |- context [for_loop ?n 0 _ (shape, ?i)] =>
    destruct (fill_loop_returns (Cartesian2.unpack array) Cartesian2.packedLength
                n 0 shape i) as [shape' ->] end.
  cbn [mbind outcome_bind JS.bind]. unfold Ellipsoid.unpack. destruct result as [r|].
  - unfold Ellipsoid.clone, Ellipsoid.read. rewrite lookup_insert_eq.
    cbn [mbind outcome_bind JS.bind]. by eexists _, _.
  - unfold new. cbn [defaultOpt polylinePositions shapePositions ellipsoid].
    rewrite Hs. cbn [defaultOpt].
    unfold Ellipsoid.clone, Ellipsoid.read. rewrite lookup_insert_eq.
    cbn [mbind outcome_bind JS.bind]. by eexists _, _.
Qed.



(** X9: the constructor copies the ellipsoid it is given (or the default
    one): the instance holds a new object with the same radii, no object
    of the store is changed, and a later change of the given ellipsoid
    does not reach the instance. *)
Theorem new_clones_ellipsoid (options : Options) (h h' : gmap positive Ellipsoid.object)
  (v : t) :
  new (Some options) h = Returns (v, h') ->
  let source := defaultOpt (ellipsoid options) Ellipsoid.WGS84 in
  h !! _ellipsoid v = None /\
  _ellipsoid v <> source /\
  is_Some (h !! source) /\
  radiiOf h' v = Ellipsoid._radii <$> (h !! source) /\
  (forall l, l <> _ellipsoid v -> h' !! l = h !! l) /\
  (forall o, radiiOf (<[source := o]> h') v = radiiOf h' v).
Proof.
  intros Hnew source. unfold new in Hnew. cbn [defaultOpt] in Hnew.
  destruct (polylinePositions options) as [positions|]; [|done].
  destruct (shapePositions options) as [shape|]; [|done].
  apply bind_Returns in Hnew as ([e h1] & Hclone & Hnew).
  unfold Ellipsoid.clone in Hclone.
  apply bind_Returns in Hclone as (radii & Hread & Hclone).
  unfold Ellipsoid.read in Hread. fold source in Hread.
  destruct (h !! source) as [o|] eqn:Hsrc; [|done].
  unfold Ellipsoid.alloc in Hclone. simplify_eq.
  unfold radiiOf. cbn [_ellipsoid]. set (e := fresh (dom h)).
  assert (e ∉ dom h) as Hfresh by apply is_fresh.
  assert (h !! e = None) as Hnone by (by apply not_elem_of_dom).
  assert (e <> source) as Hne by congruence.
  split; [done|]. split; [done|]. split; [by eexists|]. split; [|split].
  - by rewrite lookup_insert_eq.
  - intros l Hl. by rewrite lookup_insert_ne.
  - intros o'. by rewrite lookup_insert_ne, lookup_insert_eq by done.
Qed.

Lemma get_past_the_end (array : list value) (i : nat) :
  (length array <= i)%nat -> JS.get array i = undefined.
Proof. intros H. unfold JS.get. by rewrite lookup_ge_None_2. Qed.

(** X16: [unpack] does not check that the array is long enough.  With a
    starting index at or past the end every slot reads as [undefined]:
    without a result object the call returns an instance whose path and
    shape are one-element arrays holding [undefined], with the default
    corner type and granularity, and a [packedLength] of 12. *)
Theorem unpack_past_the_end (array : list value) (startingIndex : option nat) (s : state) :
  (length array <= defaultOpt startingIndex 0%nat)%nat ->
  scratchLinked s ->
  exists v' s',
    unpack (Some array) startingIndex None s = Returns (v', s') /\
    _positions v' = [None] /\
    _shape v' = [None] /\
    _cornerType v' = CornerType.ROUNDED /\
    _granularity v' = CesiumMath.RADIANS_PER_DEGREE /\
    packedLength v' = 12%nat.
Proof.
  intros Hlen Hs. unfold unpack. set (i0 := defaultOpt startingIndex 0%nat) in *.
  rewrite (get_past_the_end array i0) by done.
  cbn [new_Array trips_value for_loop mbind outcome_bind JS.bind].
  rewrite (get_past_the_end array (S i0)) by lia.
  cbn [new_Array trips_value for_loop mbind outcome_bind JS.bind].
  unfold Ellipsoid.unpack, Cartesian3.unpack.
  rewrite !get_past_the_end by lia.
  unfold new. cbn [defaultOpt polylinePositions shapePositions ellipsoid].
  rewrite Hs. cbn [defaultOpt].
  unfold Ellipsoid.clone, Ellipsoid.read, Ellipsoid.alloc. rewrite lookup_insert_eq.
  cbn [mbind outcome_bind JS.bind]. eexists _, _. split; [done|].
  cbn [_positions _shape _cornerType _granularity packedLength cornerType granularity
       defaultValue].
  by do 4 (split; [done|]).
Qed.

End SerializerProperties.

(** ** Further properties of the topology builder *)

Section TopologyProperties.

Local Open Scope Q_scope.

Lemma length_TypedArray_set (ta : TypedArray) (i : nat) (v : Q) :
  length (elements (TypedArray_set ta i v)) = length (elements ta).
Proof. unfold TypedArray_set. simpl. apply length_insert. Qed.

(** A loop that writes one segment per turn returns, advances the write
    index by two per turn and keeps the length of the buffer, whatever the
    values and whether or not the writes land. *)
Lemma pair_loop_index (va vb : nat -> Q) :
  forall (n from : nat) (ta : TypedArray) (index : nat),
    exists ta',
      for_loop n from (fun j '(indices, index) =>
          let indices := TypedArray_set indices index (va j) in
          let index := S index in
          let indices := TypedArray_set indices index (vb j) in
          let index := S index in
          Returns (indices, index)) (ta, index)
      = Returns (ta', (index + 2 * n)%nat) /\
      length (elements ta') = length (elements ta).
Proof.
  induction n as [|n IH]; intros from ta index.
  - exists ta. split; [|done]. simpl. do 2 f_equal. lia.
  - destruct (IH (S from)
                (TypedArray_set (TypedArray_set ta index (va from)) (S index) (vb from))
                (S (S index))) as (ta' & H & Hlen).
    exists ta'. split.
    + replace (index + 2 * S n)%nat with (S (S index) + 2 * n)%nat by lia. exact H.
    + by rewrite Hlen, !length_TypedArray_set.
Qed.

Lemma writeRing_index (shapeLength offset : Q) (ta : TypedArray) (index : nat) :
  exists ta',
    writeRing shapeLength offset (ta, index)
    = Returns (ta', (index + 2 * trips (shapeLength - 1) + 2)%nat) /\
    length (elements ta') = length (elements ta).
Proof.
  unfold writeRing.
  destruct (pair_loop_index (fun j => of_nat j + offset) (fun j => of_nat j + offset + 1)
              (trips (shapeLength - 1)) 0 ta index) as (ta1 & H1 & Hlen).
  cbv zeta in H1. rewrite H1.
  cbn [mbind outcome_bind JS.bind]. eexists. split.
  - do 2 f_equal. lia.
  - by rewrite !length_TypedArray_set.
Qed.

Lemma connectors_index (shapeLength : Q) :
  forall (n from : nat) (ta : TypedArray) (index : nat),
    exists ta',
      for_loop n from (fun i st =>
        let firstOffset := shapeLength * of_nat i in
        let secondOffset := firstOffset + shapeLength in
        for_loop (trips shapeLength) 0 (fun j '(indices, index) =>
          let indices := TypedArray_set indices index (of_nat j + firstOffset) in
          let index := S index in
          let indices := TypedArray_set indices index (of_nat j + secondOffset) in
          let index := S index in
          Returns (indices, index)) st)
        (ta, index)
      = Returns (ta', (index + 2 * trips shapeLength * n)%nat) /\
      length (elements ta') = length (elements ta).
Proof.
  induction n as [|n IH]; intros from ta index.
  - exists ta. split; [|done]. simpl. do 2 f_equal. lia.
  - destruct (pair_loop_index
                (fun j => of_nat j + shapeLength * of_nat from)
                (fun j => of_nat j + (shapeLength * of_nat from + shapeLength))
                (trips shapeLength) 0 ta index) as (ta1 & H1 & Hlen1).
    destruct (IH (S from) ta1 (index + 2 * trips shapeLength)%nat) as (ta' & H & Hlen).
    exists ta'. split; [|by rewrite Hlen].
    replace (index + 2 * trips shapeLength * S n)%nat
      with (index + 2 * trips shapeLength + 2 * trips shapeLength * n)%nat by lia.
    cbn [for_loop]. cbv zeta. cbv zeta in H1. rewrite H1. exact H.
Qed.

Lemma truncate_fraction (a : Z) (b : positive) :
  (0 <= a)%Z -> truncate (a # b) = (a / Z.pos b)%Z.
Proof.
  intros Ha. unfold truncate.
  assert (Qle_bool 0 (a # b) = true) as ->; [|done].
  apply Qle_bool_iff. unfold Qle. simpl. lia.
Qed.

Lemma Qceiling_fraction (a : Z) (b : positive) :
  Qceiling (a # b) = (- ((- a) / Z.pos b))%Z.
Proof. reflexivity. Qed.

(** The allocated length and the number of turns of the outer connector
    loop, in integer arithmetic. *)
Lemma allocated_length (n L : nat) :
  (1 <= L)%nat ->
  truncate (2 * of_nat L * (of_nat n / 3 / of_nat L + 1))
  = ((2 * Z.of_nat n + 6 * Z.of_nat L) / 3)%Z.
Proof.
  intros HL.
  assert (~ of_nat L == 0) as HL0.
  { unfold of_nat. change 0 with (inject_Z 0). rewrite inject_Z_injective. lia. }
  rewrite <- (truncate_fraction _ 3) by lia.
  apply truncate_comp. rewrite (Qmake_Qdiv _ 3).
  rewrite inject_Z_plus, !inject_Z_mult. fold (of_nat n). fold (of_nat L).
  change (inject_Z 2) with 2. change (inject_Z 6) with 6. change (inject_Z (Z.pos 3)) with 3.
  field. done.
Qed.

Lemma connector_turns (n L : nat) :
  (1 <= L)%nat ->
  trips (of_nat n / 3 / of_nat L - 1)
  = Z.to_nat (- ((3 * Z.of_nat L - Z.of_nat n) / (3 * Z.of_nat L)))%Z.
Proof.
  intros HL.
  assert (Z.pos (Z.to_pos (3 * Z.of_nat L)) = 3 * Z.of_nat L)%Z as Hpos
    by (apply Z2Pos.id; lia).
  assert (- (Z.of_nat n - 3 * Z.of_nat L) = 3 * Z.of_nat L - Z.of_nat n)%Z as Hopp by lia.
  assert (~ of_nat L == 0) as HL0.
  { unfold of_nat. change 0 with (inject_Z 0). rewrite inject_Z_injective. lia. }
  unfold trips. f_equal.
  rewrite (Qceiling_comp _ ((Z.of_nat n - 3 * Z.of_nat L) # Z.to_pos (3 * Z.of_nat L))).
  - rewrite Qceiling_fraction. by rewrite Hpos, Hopp.
  - rewrite (Qmake_Qdiv (Z.of_nat n - 3 * Z.of_nat L) (Z.to_pos (3 * Z.of_nat L))), Hpos.
    unfold Zminus. rewrite inject_Z_plus, inject_Z_opp, !inject_Z_mult.
    fold (of_nat n). fold (of_nat L). change (inject_Z 3) with 3.
    field. done.
Qed.

Lemma overrun_arith (n L : nat) :
  (1 <= L)%nat ->
  let allocated := Z.to_nat ((2 * Z.of_nat n + 6 * Z.of_nat L) / 3) in
  let turns := Z.to_nat (- ((3 * Z.of_nat L - Z.of_nat n) / (3 * Z.of_nat L))) in
  (allocated <= 4 * L + 2 * L * turns)%nat /\
  ((4 * L + 2 * L * turns)%nat = allocated <-> exists C, (1 <= C)%nat /\ n = (L * C * 3)%nat).
Proof.
  intros HL allocated turns.
  pose proof (Z.div_mod (2 * Z.of_nat n + 6 * Z.of_nat L) 3 ltac:(lia)) as Ha.
  pose proof (Z.mod_pos_bound (2 * Z.of_nat n + 6 * Z.of_nat L) 3 ltac:(lia)) as Ha'.
  pose proof (Z.div_mod (3 * Z.of_nat L - Z.of_nat n) (3 * Z.of_nat L) ltac:(lia)) as Hd.
  pose proof (Z.mod_pos_bound (3 * Z.of_nat L - Z.of_nat n) (3 * Z.of_nat L) ltac:(lia)) as Hd'.
  assert ((3 * Z.of_nat L - Z.of_nat n) / (3 * Z.of_nat L) <= 1)%Z as Hd1
    by (apply Z.div_le_upper_bound; lia).
  set (a := ((2 * Z.of_nat n + 6 * Z.of_nat L) / 3)%Z) in *.
  set (r := ((2 * Z.of_nat n + 6 * Z.of_nat L) mod 3)%Z) in *.
  set (d := ((3 * Z.of_nat L - Z.of_nat n) / (3 * Z.of_nat L))%Z) in *.
  set (r' := ((3 * Z.of_nat L - Z.of_nat n) mod (3 * Z.of_nat L))%Z) in *.
  clearbody a r d r'.
  assert (0 <= a)%Z as Ha0 by lia.
  assert (Z.of_nat allocated = a) as HA by (unfold allocated; lia).
  assert (Z.of_nat turns = Z.max 0 (- d)) as HT by (unfold turns; lia).
  clearbody allocated turns.
  split; [nia|]. split.
  - intros Heq. exists (S turns). split; [lia|]. nia.
  - intros (C & HC & ->).
    destruct (Z.div_mod_unique (3 * Z.of_nat L) d (1 - Z.of_nat C) r' 0) as [Hq _];
      [lia|lia|lia|]. nia.
Qed.

(** With a shape of [L >= 1] points the loops return: the write index ends
    at [4*L] plus [2*L] per turn of the connector loop, and the buffer has
    the length it was allocated with. *)
Lemma computeIndices_index (positions : list Q) (shape : list (option Cartesian2.t)) :
  (1 <= length shape)%nat ->
  exists ta,
    computeIndices positions shape
    = Returns (ta,
               (4 * length shape
                + 2 * length shape
                  * Z.to_nat (- ((3 * Z.of_nat (length shape) - Z.of_nat (length positions))
                                 / (3 * Z.of_nat (length shape)))))%nat) /\
    length (elements ta)
    = Z.to_nat ((2 * Z.of_nat (length positions) + 6 * Z.of_nat (length shape)) / 3).
Proof.
  intros HL. set (L := length shape) in *. set (n := length positions).
  assert (0 <= (2 * Z.of_nat n + 6 * Z.of_nat L) / 3)%Z as Hnn
    by (apply Z.div_pos; lia).
  assert (~ of_nat L == 0) as HL0.
  { unfold of_nat. change 0 with (inject_Z 0). rewrite inject_Z_injective. lia. }
  unfold computeIndices. fold L. fold n.
  assert (Qeq_bool (of_nat L) 0 = false) as ->.
  { destruct (Qeq_bool (of_nat L) 0) eqn:E; [|done]. by apply Qeq_bool_iff in E. }
  unfold IndexDatatype.createTypedArray, TypedArray_new.
  rewrite (allocated_length n L HL).
  rewrite (proj2 (Z.ltb_ge _ _) Hnn). cbn [mbind outcome_bind JS.bind].
  edestruct (writeRing_index (of_nat L) (0 * of_nat L)) as (ta1 & H1 & Hlen1).
  rewrite H1. cbn [mbind outcome_bind JS.bind].
  edestruct (writeRing_index (of_nat L)
               ((of_nat n / 3 / of_nat L - 1) * of_nat L) ta1) as (ta2 & H2 & Hlen2).
  rewrite H2. cbn [mbind outcome_bind JS.bind].
  edestruct (connectors_index (of_nat L) (trips (of_nat n / 3 / of_nat L - 1)) 0 ta2)
    as (ta3 & H3 & Hlen3).
  cbv zeta in H3. exists ta3. split.
  - rewrite H3. do 2 f_equal.
    rewrite (connector_turns n L HL).
    assert (trips (of_nat L - 1) = (L - 1)%nat) as ->.
    { rewrite (trips_integer _ (Z.of_nat (L - 1))); [lia|]. by apply of_nat_pred. }
    assert (trips (of_nat L) = L) as ->.
    { rewrite (trips_integer _ (Z.of_nat L)); [lia|done]. }
    lia.
  - rewrite Hlen3, Hlen2, Hlen1. simpl. by rewrite length_replicate.
Qed.


Lemma wrap_index (L C n : nat) :
  (Z.of_nat (L * C * 3) <= MAX_ARRAY_LENGTH)%Z -> (n < L * C)%nat ->
  wrap (indexWidth (L * C)) n = Z.of_nat n.
Proof.
  intros Hmax Hn. unfold wrap. apply Z.mod_small.
  unfold indexWidth. unfold MAX_ARRAY_LENGTH in Hmax.
  destruct (65536 <=? Z.of_nat (L * C))%Z eqn:E.
  - assert (2 ^ 32 = 4294967296)%Z as -> by reflexivity. lia.
  - apply Z.leb_gt in E. assert (2 ^ 16 = 65536)%Z as -> by reflexivity. lia.
Qed.

Lemma wrap_indexBuffer (L C : nat) :
  (1 <= L)%nat -> (1 <= C)%nat -> (Z.of_nat (L * C * 3) <= MAX_ARRAY_LENGTH)%Z ->
  wrap (indexWidth (L * C)) <$> Outline.indexBuffer L C
  = Z.of_nat <$> Outline.indexBuffer L C.
Proof.
  intros HL HC Hmax. apply Forall_fmap_ext_1.
  eapply Forall_impl; [by apply indexBuffer_range|].
  intros n Hn. by apply wrap_index.
Qed.

Lemma endRing_single (L : nat) : Outline.endRing L 1 = Outline.startRing L.
Proof.
  unfold Outline.endRing. rewrite <- (list_fmap_id (Outline.startRing L)) at 2.
  apply list_fmap_ext. intros _ [a b] _. unfold Outline.shift. simpl. f_equal; lia.
Qed.

Section WithBoundingSphere.

Context {BoundingSphere : Type}.
Variable BoundingSphere_fromVertices : list Q -> BoundingSphere.

(** The geometry [computeAttributes] returns on a whole number of
    cross-sections, field by field. *)
Lemma computeAttributes_returns (positions : list Q) (shape : list (option Cartesian2.t))
  (L C : nat) :
  length shape = L -> length positions = (L * C * 3)%nat ->
  (1 <= L)%nat -> (1 <= C)%nat ->
  computeAttributes BoundingSphere_fromVertices positions shape
  = Returns
      {| attributes :=
           {| position := Some {| componentDatatype := ComponentDatatype.DOUBLE;
                                  componentsPerAttribute := 3;
                                  values := positions |} |};
         indices := {| bits := indexWidth (L * C);
                       elements := wrap (indexWidth (L * C)) <$> Outline.indexBuffer L C |};
         boundingSphere := BoundingSphere_fromVertices positions;
         primitiveType := PrimitiveType.LINES |}.
Proof.
  intros HL HP H1 HC. unfold computeAttributes.
  rewrite (computeIndices_spec _ _ L C) by done.
  cbn [mbind outcome_bind JS.bind]. do 2 f_equal.
  unfold IndexDatatype.createTypedArray_from, TypedArray_from. cbn [elements].
  assert (IndexDatatype.width (of_nat (length positions) / 3) = indexWidth (L * C)) as ->.
  { apply width_integer. rewrite HP, (of_nat_mult (L * C) 3).
    change (of_nat 3) with 3%Q. field. }
  f_equal. rewrite <- list_fmap_compose.
  apply list_fmap_ext. intros _ n _. simpl. apply wrap_idempotent.
Qed.

(** X11: a vertex buffer that holds a single cross-section gives the ring
    over it twice, once as start ring and once as end ring, and no
    connector. *)
Theorem computeAttributes_single_cross_section
  (positions : list Q) (shape : list (option Cartesian2.t)) (shapeLength : nat) :
  length shape = shapeLength ->
  length positions = (shapeLength * 3)%nat ->
  (1 <= shapeLength)%nat ->
  (Z.of_nat (length positions) <= MAX_ARRAY_LENGTH)%Z ->
  exists g,
    computeAttributes BoundingSphere_fromVertices positions shape = Returns g /\
    elements (indices g)
    = Z.of_nat <$> Outline.flatten (Outline.startRing shapeLength
                                    ++ Outline.startRing shapeLength).
Proof.
  intros HL HP H1 Hmax. eexists.
  split; [apply (computeAttributes_returns _ _ shapeLength 1); done || lia|].
  cbn [indices elements].
  rewrite wrap_indexBuffer by (done || lia).
  unfold Outline.indexBuffer, Outline.segments.
  rewrite endRing_single. unfold Outline.connectors. simpl. by rewrite app_nil_r.
Qed.

Lemma indexBuffer_covers (L C v : nat) :
  (1 <= L)%nat -> (1 <= C)%nat -> (v < L * C)%nat -> v ∈ Outline.indexBuffer L C.
Proof.
  intros HL HC Hv. unfold Outline.indexBuffer, Outline.flatten.
  apply list_elem_of_bind. unfold Outline.segments.
  destruct (decide (v < L)%nat) as [Hlt|Hge].
  - destruct (decide (v < L - 1)%nat) as [Hlt'|Hlast].
    + exists (v, (v + 1)%nat). split; [set_solver|].
      apply elem_of_app. left. unfold Outline.startRing. apply elem_of_app. left.
      apply (list_elem_of_fmap_2 (fun j => (j, (j + 1)%nat))).
      apply elem_of_seq. lia.
    + exists ((L - 1)%nat, 0%nat). split; [simpl; replace v with (L - 1)%nat by lia; set_solver|].
      apply elem_of_app. left. unfold Outline.startRing. apply elem_of_app. right.
      set_solver.
  - set (i := (v / L - 1)%nat). set (j := (v mod L)%nat).
    pose proof (Nat.div_mod_eq v L) as Hdm.
    pose proof (Nat.mod_upper_bound v L ltac:(lia)) as Hj.
    assert (1 <= v / L)%nat as Hq by (apply Nat.div_le_lower_bound; lia).
    assert (v / L < C)%nat as HqC by (apply Nat.Div0.div_lt_upper_bound; lia).
    exists ((j + i * L)%nat, (j + (i + 1) * L)%nat). split.
    + simpl. replace (j + (i + 1) * L)%nat with v by (unfold i, j; nia). set_solver.
    + apply elem_of_app. right. apply elem_of_app. right.
      unfold Outline.connectors. apply list_elem_of_bind. exists i. split.
      * apply (list_elem_of_fmap_2 (fun j => ((j + i * L)%nat, (j + (i + 1) * L)%nat))).
        apply elem_of_seq. lia.
      * apply elem_of_seq. unfold i. lia.
Qed.

(** X12: on a whole number of cross-sections the outline reaches every
    vertex: each vertex index below the vertex count occurs in the index
    buffer. *)
Theorem computeAttributes_reaches_every_vertex
  (positions : list Q) (shape : list (option Cartesian2.t))
  (shapeLength shapeCount vertex : nat) :
  length shape = shapeLength ->
  length positions = (shapeLength * shapeCount * 3)%nat ->
  (1 <= shapeLength)%nat -> (1 <= shapeCount)%nat ->
  (Z.of_nat (length positions) <= MAX_ARRAY_LENGTH)%Z ->
  (vertex < shapeLength * shapeCount)%nat ->
  exists g,
    computeAttributes BoundingSphere_fromVertices positions shape = Returns g /\
    Z.of_nat vertex ∈ elements (indices g).
Proof.
  intros HL HP H1 HC Hmax Hv. eexists.
  split; [by apply (computeAttributes_returns _ _ shapeLength shapeCount)|].
  cbn [indices elements]. rewrite wrap_indexBuffer by (done || lia).
  apply list_elem_of_fmap_2. by apply indexBuffer_covers.
Qed.

Lemma segments_proper (L C : nat) :
  (2 <= L)%nat -> (1 <= C)%nat ->
  Forall (fun s => fst s <> snd s /\ (fst s < L * C)%nat /\ (snd s < L * C)%nat)
    (Outline.segments L C).
Proof.
  intros HL HC. unfold Outline.segments, Outline.endRing, Outline.connectors,
    Outline.startRing.
  rewrite !Forall_app. repeat split.
  - apply Forall_fmap, Forall_seq. intros j Hj. simpl. nia.
  - repeat constructor; simpl; nia.
  - rewrite fmap_app, Forall_app. split.
    + apply Forall_fmap, Forall_fmap, Forall_seq. intros j Hj. simpl. nia.
    + repeat constructor; simpl; nia.
  - apply Forall_bind, Forall_seq. intros i Hi.
    apply Forall_fmap, Forall_seq. intros j Hj. simpl. nia.
Qed.

Lemma length_segments (L C : nat) :
  (1 <= L)%nat -> (1 <= C)%nat -> length (Outline.segments L C) = (L * (C + 1))%nat.
Proof.
  intros HL HC. unfold Outline.segments, Outline.endRing.
  rewrite !length_app, length_fmap, length_connectors, (length_startRing _ HL). nia.
Qed.

(** X13: with a shape of at least two points, the index buffer is a list
    of [shapeLength * (shapeCount + 1)] segments, each of which joins two
    different vertices of the buffer. *)
Theorem computeAttributes_proper_segments
  (positions : list Q) (shape : list (option Cartesian2.t))
  (shapeLength shapeCount : nat) :
  length shape = shapeLength ->
  length positions = (shapeLength * shapeCount * 3)%nat ->
  (2 <= shapeLength)%nat -> (1 <= shapeCount)%nat ->
  (Z.of_nat (length positions) <= MAX_ARRAY_LENGTH)%Z ->
  exists g segments,
    computeAttributes BoundingSphere_fromVertices positions shape = Returns g /\
    elements (indices g) = Z.of_nat <$> Outline.flatten segments /\
    length segments = (shapeLength * (shapeCount + 1))%nat /\
    Forall (fun s => fst s <> snd s /\
                     (fst s < shapeLength * shapeCount)%nat /\
                     (snd s < shapeLength * shapeCount)%nat) segments.
Proof.
  intros HL HP H2 HC Hmax. eexists. exists (Outline.segments shapeLength shapeCount).
  split; [apply (computeAttributes_returns _ _ shapeLength shapeCount); done || lia|].
  cbn [indices elements]. rewrite wrap_indexBuffer by (done || lia).
  split; [done|]. split; [apply length_segments; lia|by apply segments_proper].
Qed.

End WithBoundingSphere.

End TopologyProperties.

(** ** No segment of the outline is listed twice *)

Section DistinctSegments.

Lemma unordered_startRing (L : nat) :
  (2 <= L)%nat ->
  unordered <$> Outline.startRing L
  = ((fun j => (j, (j + 1)%nat)) <$> seq 0 (L - 1)) ++ [(0%nat, (L - 1)%nat)].
Proof.
  intros HL. unfold Outline.startRing. rewrite fmap_app, <- list_fmap_compose. f_equal.
  - apply list_fmap_ext. intros _ j _. unfold unordered. simpl. f_equal; lia.
  - unfold unordered. simpl. do 2 f_equal; lia.
Qed.

Lemma elem_of_unordered_startRing (L : nat) (s : nat * nat) :
  (2 <= L)%nat ->
  s ∈ unordered <$> Outline.startRing L ->
  (fst s < L)%nat /\ (snd s < L)%nat /\
  (snd s = (fst s + 1)%nat \/ (fst s = 0%nat /\ snd s = (L - 1)%nat)).
Proof.
  intros HL. rewrite unordered_startRing by done.
  rewrite elem_of_app, list_elem_of_fmap, list_elem_of_singleton.
  intros [(j & -> & Hj) | ->]; simpl.
  - apply elem_of_seq in Hj. lia.
  - lia.
Qed.

Lemma NoDup_unordered_startRing (L : nat) :
  (3 <= L)%nat -> NoDup (unordered <$> Outline.startRing L).
Proof.
  intros HL. rewrite unordered_startRing by lia. apply NoDup_app. repeat split.
  - apply NoDup_fmap_2; [|apply NoDup_seq]. intros j1 j2 H. by injection H.
  - intros s Hs. rewrite list_elem_of_fmap in Hs. destruct Hs as (j & -> & Hj).
    apply elem_of_seq in Hj. rewrite list_elem_of_singleton. intros H.
    injection H as H1 H2. lia.
  - apply NoDup_singleton.
Qed.

Lemma unordered_shift (offset : nat) (s : nat * nat) :
  unordered (Outline.shift offset s) = Outline.shift offset (unordered s).
Proof. unfold unordered, Outline.shift. simpl. f_equal; lia. Qed.

Lemma unordered_endRing (L C : nat) :
  unordered <$> Outline.endRing L C
  = Outline.shift ((C - 1) * L) <$> (unordered <$> Outline.startRing L).
Proof.
  unfold Outline.endRing. rewrite <- !list_fmap_compose.
  apply list_fmap_ext. intros _ s _. simpl. apply unordered_shift.
Qed.

Lemma unordered_connectors (L C : nat) :
  unordered <$> Outline.connectors L C = Outline.connectors L C.
Proof.
  unfold Outline.connectors.
  assert (forall n from,
    unordered <$> (i ← seq from n;
                   (fun j => ((j + i * L)%nat, (j + (i + 1) * L)%nat)) <$> seq 0 L)
    = (i ← seq from n;
       (fun j => ((j + i * L)%nat, (j + (i + 1) * L)%nat)) <$> seq 0 L)) as H; [|apply H].
  induction n as [|n IH]; intros from; [done|].
  change (seq from (S n)) with (from :: seq (S from) n).
  rewrite !bind_cons, fmap_app, IH. f_equal.
  rewrite <- list_fmap_compose. apply list_fmap_ext. intros _ j _.
  unfold unordered. simpl. f_equal; lia.
Qed.

Lemma elem_of_connectors (L C : nat) (s : nat * nat) :
  s ∈ Outline.connectors L C <->
  exists i j, (i < C - 1)%nat /\ (j < L)%nat /\
              s = ((j + i * L)%nat, (j + (i + 1) * L)%nat).
Proof.
  unfold Outline.connectors. rewrite list_elem_of_bind. split.
  - intros (i & Hs & Hi). apply list_elem_of_fmap in Hs as (j & -> & Hj).
    apply elem_of_seq in Hi, Hj. exists i, j. repeat split; lia.
  - intros (i & j & Hi & Hj & ->). exists i. split.
    + apply (list_elem_of_fmap_2 (fun j => ((j + i * L)%nat, (j + (i + 1) * L)%nat))).
      apply elem_of_seq. lia.
    + apply elem_of_seq. lia.
Qed.

Lemma NoDup_connectors (L C : nat) : NoDup (Outline.connectors L C).
Proof.
  unfold Outline.connectors. apply NoDup_bind.
  - intros i1 i2 s _ _ H1 H2.
    apply list_elem_of_fmap in H1 as (j1 & -> & Hj1).
    apply list_elem_of_fmap in H2 as (j2 & Heq & Hj2).
    apply elem_of_seq in Hj1, Hj2. injection Heq as Ha Hb. nia.
  - intros i _. apply NoDup_fmap_2; [|apply NoDup_seq].
    intros j1 j2 H. injection H as H _. lia.
  - apply NoDup_seq.
Qed.

(** The segments of the three groups are pairwise different, whichever
    way round each is read. *)
Lemma NoDup_unordered_segments (L C : nat) :
  (3 <= L)%nat -> (2 <= C)%nat -> NoDup (unordered <$> Outline.segments L C).
Proof.
  intros HL HC. unfold Outline.segments.
  rewrite !fmap_app, unordered_endRing, unordered_connectors.
  apply NoDup_app. split; [by apply NoDup_unordered_startRing|]. split.
  - intros s Hs Hin. apply elem_of_unordered_startRing in Hs; [|lia].
    apply elem_of_app in Hin as [Hin|Hin].
    + apply list_elem_of_fmap in Hin as (s' & -> & Hs').
      apply elem_of_unordered_startRing in Hs'; [|lia].
      unfold Outline.shift in Hs. simpl in Hs. nia.
    + apply elem_of_connectors in Hin as (i & j & Hi & Hj & ->). simpl in Hs. nia.
  - apply NoDup_app. split; [|split].
    + apply NoDup_fmap_2; [|by apply NoDup_unordered_startRing].
      intros [a b] [c d] H. unfold Outline.shift in H. simpl in H.
      injection H as H1 H2. f_equal; lia.
    + intros s Hs Hin. apply list_elem_of_fmap in Hs as (s' & -> & Hs').
      apply elem_of_unordered_startRing in Hs'; [|lia].
      apply elem_of_connectors in Hin as (i & j & Hi & Hj & Heq).
      unfold Outline.shift in Heq. simpl in Heq. injection Heq as H1 H2. nia.
    + apply NoDup_connectors.
Qed.

Context {BoundingSphere : Type}.
Variable BoundingSphere_fromVertices : list Q -> BoundingSphere.

(** X14: with a shape of at least three points and at least two
    cross-sections, no segment of the index buffer is listed twice, in
    either direction. *)
Theorem computeAttributes_no_segment_twice
  (positions : list Q) (shape : list (option Cartesian2.t))
  (shapeLength shapeCount : nat) :
  length shape = shapeLength ->
  length positions = (shapeLength * shapeCount * 3)%nat ->
  (3 <= shapeLength)%nat -> (2 <= shapeCount)%nat ->
  (Z.of_nat (length positions) <= MAX_ARRAY_LENGTH)%Z ->
  exists g segments,
    computeAttributes BoundingSphere_fromVertices positions shape = Returns g /\
    elements (indices g) = Z.of_nat <$> Outline.flatten segments /\
    NoDup (unordered <$> segments).
Proof.
  intros HL HP H3 H2 Hmax. eexists. exists (Outline.segments shapeLength shapeCount).
  split; [apply (computeAttributes_returns _ _ _ shapeLength shapeCount); done || lia|].
  cbn [indices elements]. rewrite wrap_indexBuffer by (done || lia).
  split; [done|]. by apply NoDup_unordered_segments.
Qed.

End DistinctSegments.

(** ** [createGeometry] from end to end *)

Section CreateGeometryProperties.

Import PolylineVolumeOutlineGeometry.

Context {BoundingSphere BoundingRectangle : Type}.
Variable BoundingSphere_fromVertices : list Q -> BoundingSphere.
Variable BoundingRectangle_fromPoints : list (option Cartesian2.t) -> BoundingRectangle.
Variable removeDuplicatesFromPositions :
  list (option Cartesian3.t) -> Ellipsoid.ref -> gmap positive Ellipsoid.object ->
  list (option Cartesian3.t).
Variable removeDuplicatesFromShape :
  list (option Cartesian2.t) -> list (option Cartesian2.t).
Variable computePositions :
  list (option Cartesian3.t) -> list (option Cartesian2.t) -> BoundingRectangle ->
  PolylineVolumeOutlineGeometry.t -> gmap positive Ellipsoid.object -> bool -> list Q.

(** X15: when the cleaned path has at least 2 points, the cleaned shape at
    least 3 points with a winding order, and the sweeper emits a whole
    number of cross-sections of the shape it is handed, [createGeometry]
    returns a geometry of lines whose positions are the sweeper's output,
    untouched, and whose indices are the outline of those cross-sections;
    the sweeper is asked for outline vertices only. *)
Theorem createGeometry_returns (g : PolylineVolumeOutlineGeometry.t)
  (h : gmap positive Ellipsoid.object) (order : WindingOrder.t) (shapeCount : nat) :
  let cleanPath := removeDuplicatesFromPositions (_positions g) (_ellipsoid g) h in
  let cleanShape := removeDuplicatesFromShape (_shape g) in
  let shape2D :=
    if decide (order = WindingOrder.CLOCKWISE) then reverse cleanShape else cleanShape in
  let computed :=
    computePositions cleanPath shape2D (BoundingRectangle_fromPoints shape2D) g h false in
  (2 <= length cleanPath)%nat ->
  (3 <= length cleanShape)%nat ->
  PolygonPipeline.computeWindingOrder2D cleanShape = Returns order ->
  length computed = (length cleanShape * shapeCount * 3)%nat ->
  (1 <= shapeCount)%nat ->
  (Z.of_nat (length computed) <= MAX_ARRAY_LENGTH)%Z ->
  exists geometry,
    createGeometry BoundingSphere_fromVertices BoundingRectangle_fromPoints
      removeDuplicatesFromPositions removeDuplicatesFromShape computePositions g h
    = Returns geometry /\
    attributes geometry
    = {| position := Some {| componentDatatype := ComponentDatatype.DOUBLE;
                             componentsPerAttribute := 3;
                             values := computed |} |} /\
    primitiveType geometry = PrimitiveType.LINES /\
    boundingSphere geometry = BoundingSphere_fromVertices computed /\
    elements (indices geometry)
    = Z.of_nat <$> Outline.indexBuffer (length cleanShape) shapeCount.
Proof.
  intros cleanPath cleanShape shape2D computed H2 H3 Horder Hlen HC Hmax.
  unfold createGeometry. fold cleanPath. fold cleanShape.
  rewrite !decide_False by lia. rewrite Horder.
  cbn [mbind outcome_bind JS.bind]. fold shape2D. fold computed.
  assert (length shape2D = length cleanShape) as HL.
  { unfold shape2D. case_decide; [apply length_reverse|done]. }
  rewrite (computeAttributes_returns _ computed shape2D (length cleanShape) shapeCount)
    by (done || lia).
  eexists. split; [done|]. cbn [attributes primitiveType boundingSphere indices elements].
  do 3 (split; [done|]). apply wrap_indexBuffer; [lia|done|by rewrite <- Hlen].
Qed.

End CreateGeometryProperties.

(** ** The further properties on concrete inputs *)

Section PropertiesOnExamples.

Import PolylineVolumeOutlineGeometry.

Lemma unpack_depends_on_region_only_witness :
  unpack (Some hexagonFormat) (Some 0%nat) None exampleState
  = unpack (Some shiftedArray) (Some 2%nat) None exampleState.
Proof.
  apply (unpack_depends_on_region_only hexagonFormat shiftedArray 0 2 shortPath hexagon
           Ellipsoid.WGS84_radii CornerType.ROUNDED CesiumMath.RADIANS_PER_DEGREE
           None exampleState);
    [reflexivity | reflexivity | by vm_compute | by vm_compute | reflexivity].
Defined.

Lemma pack_back_to_back_witness :
  exists a1 a2 u1 s1 u2 s2,
    pack (Some hexagonSpec) (Some []) (Some 0%nat) exampleStore = Returns a1 /\
    pack (Some triangleSpec) (Some a1) (Some 25%nat) exampleStore = Returns a2 /\
    unpack (Some a2) (Some 0%nat) None exampleState = Returns (u1, s1) /\
    unpack (Some a2) (Some 25%nat) None s1 = Returns (u2, s2) /\
    sameDescription hexagonSpec u1 /\ sameDescription triangleSpec u2.
Proof.
  destruct (pack_back_to_back hexagonSpec triangleSpec exampleStore shortPath longPath
              hexagon triangle Ellipsoid.WGS84_radii Ellipsoid.UNIT_SPHERE_radii
              [] 0 exampleState)
    as (a1 & a2 & u1 & s1 & u2 & s2 & H1 & H2 & H3 & H4 & H5 & _ & H6 & _).
  - constructor; try reflexivity; by vm_compute.
  - constructor; try reflexivity; by vm_compute.
  - reflexivity.
  - reflexivity.
  - exists a1, a2, u1, s1, u2, s2.
    split; [exact H1|]. split; [exact H2|]. split; [exact H3|]. split; [exact H4|].
    split; [exact H5 | exact H6].
Defined.

Lemma pack_unpack_pack_witness :
  exists packed v' s',
    pack (Some hexagonSpec) (Some []) (Some 0%nat) exampleStore = Returns packed /\
    unpack (Some packed) (Some 0%nat) (Some triangleSpec) exampleState = Returns (v', s') /\
    pack (Some v') (Some packed) (Some 0%nat) (ellipsoids s') = Returns packed.
Proof.
  destruct (pack_unpack_pack hexagonSpec exampleStore shortPath hexagon
              Ellipsoid.WGS84_radii [] 0 (Some triangleSpec) exampleState)
    as (packed & v' & s' & H1 & H2 & H3 & _).
  - constructor; try reflexivity; by vm_compute.
  - reflexivity.
  - exists packed, v', s'. split; [exact H1|]. split; [exact H2 | exact H3].
Defined.

Lemma packedLength_is_what_pack_writes_witness :
  exists packed,
    pack (Some hexagonSpec) (Some []) (Some 3%nat) exampleStore = Returns packed /\
    length packed = 28%nat.
Proof.
  destruct (packedLength_is_what_pack_writes hexagonOptions (ellipsoids initial)
              exampleStore hexagonSpec shortPath hexagon [] 3)
    as (packed & H1 & H2 & _).
  - reflexivity.
  - reflexivity.
  - by vm_compute.
  - by vm_compute.
  - by vm_compute.
  - exists packed. split; [exact H1 | exact H2].
Defined.

Lemma unpack_fresh_packedConsistent_witness :
  exists v' s',
    unpack (Some hexagonFormat) None None exampleState = Returns (v', s') /\
    packedConsistent v'.
Proof.
  eexists _, _. split; [vm_compute; reflexivity|].
  eapply (unpack_fresh_packedConsistent hexagonFormat None exampleState).
  vm_compute. reflexivity.
Defined.


Lemma unpack_outcome_witness :
  unpack (Some [number 2; number 0; number (1 # 2)]) (Some 1%nat) None exampleState
  = Throws RangeError.
Proof.
  apply (unpack_outcome [number 2; number 0; number (1 # 2)] (Some 1%nat) None exampleState).
  reflexivity.
Defined.


Lemma new_clones_ellipsoid_witness :
  ellipsoids initial !! _ellipsoid hexagonSpec = None /\
  _ellipsoid hexagonSpec <> Ellipsoid.WGS84 /\
  radiiOf exampleStore hexagonSpec = Some Ellipsoid.WGS84_radii.
Proof.
  destruct (new_clones_ellipsoid hexagonOptions (ellipsoids initial) exampleStore hexagonSpec)
    as (H1 & H2 & _ & H3 & _).
  - by vm_compute.
  - split; [exact H1|]. split; [exact H2|]. rewrite H3. by vm_compute.
Defined.


Lemma computeAttributes_single_cross_section_witness :
  exists g,
    computeAttributes (fun _ => tt) (replicate 9 0%Q) triangleShape = Returns g /\
    elements (indices g) = [0; 1; 1; 2; 2; 0; 0; 1; 1; 2; 2; 0]%Z.
Proof.
  apply (computeAttributes_single_cross_section (fun _ => tt) (replicate 9 0%Q)
           triangleShape 3);
    [reflexivity | reflexivity | lia | by vm_compute].
Defined.

Lemma computeAttributes_reaches_every_vertex_witness :
  exists g,
    computeAttributes (fun _ => tt) twoTriangles triangleShape = Returns g /\
    5%Z ∈ elements (indices g).
Proof.
  apply (computeAttributes_reaches_every_vertex (fun _ => tt) twoTriangles triangleShape
           3 2 5);
    [reflexivity | reflexivity | lia | lia | by vm_compute | lia].
Defined.

Lemma computeAttributes_proper_segments_witness :
  exists g segments,
    computeAttributes (fun _ => tt) twoTriangles triangleShape = Returns g /\
    elements (indices g) = Z.of_nat <$> Outline.flatten segments /\
    length segments = 9%nat /\
    Forall (fun s => fst s <> snd s /\ (fst s < 6)%nat /\ (snd s < 6)%nat) segments.
Proof.
  apply (computeAttributes_proper_segments (fun _ => tt) twoTriangles triangleShape 3 2);
    [reflexivity | reflexivity | lia | lia | by vm_compute].
Defined.

Lemma computeAttributes_no_segment_twice_witness :
  exists g segments,
    computeAttributes (fun _ => tt) twoTriangles triangleShape = Returns g /\
    elements (indices g) = Z.of_nat <$> Outline.flatten segments /\
    NoDup (unordered <$> segments).
Proof.
  apply (computeAttributes_no_segment_twice (fun _ => tt) twoTriangles triangleShape 3 2);
    [reflexivity | reflexivity | lia | lia | by vm_compute].
Defined.

Lemma createGeometry_returns_witness :
  exists geometry,
    createGeometry (fun _ => tt) (fun _ => tt) keepPositions keepShape sweepTwice
      triangleSpec exampleStore
    = Returns geometry /\
    primitiveType geometry = PrimitiveType.LINES /\
    elements (indices geometry)
    = [0; 1; 1; 2; 2; 0; 3; 4; 4; 5; 5; 3; 0; 3; 1; 4; 2; 5]%Z.
Proof.
  destruct (createGeometry_returns (fun _ => tt) (fun _ => tt) keepPositions keepShape
              sweepTwice triangleSpec exampleStore WindingOrder.CLOCKWISE 2)
    as (geometry & H1 & _ & H2 & _ & H3).
  - simpl. lia.
  - simpl. lia.
  - reflexivity.
  - reflexivity.
  - lia.
  - by vm_compute.
  - exists geometry. split; [exact H1|]. split; [exact H2 | exact H3].
Defined.

Lemma unpack_past_the_end_witness :
  exists v' s',
    unpack (Some []) None None initial = Returns (v', s') /\
    _positions v' = [None] /\ _shape v' = [None] /\ packedLength v' = 12%nat.
Proof.
  destruct (unpack_past_the_end [] None initial)
    as (v' & s' & H1 & H2 & H3 & _ & _ & H4).
  - simpl. lia.
  - reflexivity.
  - exists v', s'. split; [exact H1|]. split; [exact H2|]. split; [exact H3 | exact H4].
Defined.

End PropertiesOnExamples.
